(** * Multi-path Pathfinder: [stan::services::pathfinder::pathfinder_lbfgs_multi]

    A shallow embedding of [src/stan/services/pathfinder/multi.hpp].

    The function talks to its collaborators (the two writers, the logger,
    the single-path runner, the PSIS weight routine and the random number
    generator) through calls whose order matters; the embedding returns the
    status code together with the list of those calls.  The thread pool is
    embedded as the sub-ranges handed to the body and a schedule that
    interleaves the atomic operations of the bodies on the shared
    concurrent vectors and the shared atomic counter. *)

From Stdlib Require Import ZArith String Ascii List Lia PrimFloat Uint63 DecimalString.
From stdpp Require Import list strings.

Open Scope Z_scope.

(** ** Data *)

(** [double] is IEEE binary64, as the kernel's primitive floats are. *)
Abbreviation double := float (only parsing).

(** [Eigen::Array<double, -1, -1>], column-major: the row count and the
    columns from left to right. *)
Record matrix := { mat_rows : nat; mat_cols : list (list double) }.

Definition rows (m : matrix) : nat := mat_rows m.
Definition cols (m : matrix) : nat := length (mat_cols m).

(** The tuple returned by [pathfinder_lbfgs_single<true>]: [std::get<0>] to
    [std::get<3>]. *)
Record single_ret := {
  ret_code : Z;
  ret_lp_ratios : list double;
  ret_samples : matrix;
  ret_lp_calls : Z
}.

(** [tbb::blocked_range<int>]: the half-open range [r.begin(), r.end()). *)
Record blocked_range := { r_begin : Z; r_end : Z }.

(** The four readings of [std::chrono::steady_clock::now()], in clock
    ticks of one nanosecond. *)
Record clock := {
  start_pathfinders_time : Z;
  end_pathfinders_time : Z;
  start_psis_time : Z;
  end_psis_time : Z
}.

(** What the function does to the outside world, call by call. *)
Inductive event :=
| param_names_row (names : list string)   (* parameter_writer(param_names) *)
| diag_names_row (names : list string)    (* diagnostic_writer(param_names) *)
| call_single (iter seed stream : Z)      (* pathfinder_lbfgs_single(.., random_seed, path + iter, ..) *)
| logger_info (msg : string)              (* logger.info(msg) *)
| call_psis_weights (lp_ratios : list double) (tail_len : double)
| call_create_rng (seed stream : Z)       (* util::create_rng(random_seed, path) *)
| param_draw (col : list double)          (* parameter_writer(samples.col(j)) *)
| param_blank                             (* parameter_writer() *)
| param_text (s : string).                (* parameter_writer(std::string) *)

(** The atomic operations of one worker inside [tbb::parallel_for]. *)
Inductive action :=
| emit (e : event)
| push_lp_ratios (r : list double)        (* individual_lp_ratios.emplace_back *)
| push_samples (s : matrix)               (* individual_samples.emplace_back *)
| add_lp_calls (n : Z).                   (* lp_calls += n *)

(** The shared objects the workers update. *)
Record par_state := {
  individual_lp_ratios : list (list double);
  individual_samples : list matrix;
  lp_calls : Z;
  trace : list event
}.

(** How a call ends: it returns a status code, an assertion of Eigen or an
    out-of-range access stops it, or it is still in the draw loop when the
    fuel runs out. *)
Inductive outcome :=
| returned (code : Z)
| assert_failed
| running.

(** ** Integer and string helpers *)

(** Conversion to [unsigned int] (32 bits) and to [size_t] (64 bits). *)
Definition to_unsigned (z : Z) : Z := z mod 2 ^ 32.
Definition to_size_t (z : Z) : Z := z mod 2 ^ 64.

(** [std::to_string] on the integer types. *)
Definition to_string (z : Z) : string := NilZero.string_of_int (Z.to_int z).

(** [std::string(n, c)]. *)
Fixpoint string_fill (n : nat) (c : ascii) : string :=
  match n with
  | O => EmptyString
  | S n' => String c (string_fill n' c)
  end.

(** Conversion of a non-negative integer below 2^63 to [double]. *)
Definition to_double (z : Z) : double := PrimFloat.of_uint63 (Uint63.of_Z z).

(** [std::min(a, b)] is [(b < a) ? b : a]. *)
Definition std_min (a b : double) : double := if PrimFloat.ltb b a then b else a.

(** [duration_seconds]: the difference truncated to milliseconds, over
    [1000.0].  The clock is steady, the difference is not negative. *)
Definition duration_seconds (t_start t_end : Z) : double :=
  PrimFloat.div (to_double (Z.quot (t_end - t_start) 1000000)) (to_double 1000).

(** Line 170: [std::min(0.2 * num_returned_samples,
    3 * std::sqrt(num_returned_samples))]; the literal is the [double]
    nearest to 0.2. *)
Definition tail_len_of (num_returned_samples : Z) : double :=
  std_min (PrimFloat.mul 0x1.999999999999ap-3%float (to_double num_returned_samples))
          (PrimFloat.mul 3%float (PrimFloat.sqrt (to_double num_returned_samples))).

Definition Zsum (l : list Z) : Z := fold_right Z.add 0 l.

(** ** Seeding *)

(** The (seed, stream) pair handed to path [iter]: [random_seed] and
    [path + iter], the sum taken in [unsigned int]. *)
Definition single_path_seeding (random_seed path iter : Z) : Z * Z :=
  (random_seed, to_unsigned (path + iter)).

(** The (seed, stream) pair of the resampling generator, line 175. *)
Definition psis_seeding (random_seed path : Z) : Z * Z := (random_seed, path).

(** ** The thread pool *)

(** The pool splits [blocked_range<int>(b, e)] where it chooses to: the
    cut points of [cuts] that advance inside the range are taken, the
    others are skipped.  An empty range has no sub-range. *)
Fixpoint split_range (b e : Z) (cuts : list Z) : list blocked_range :=
  match cuts with
  | [] => if b <? e then [ {| r_begin := b; r_end := e |} ] else []
  | c :: cuts' =>
      if (b <? c) && (c <? e)
      then {| r_begin := b; r_end := c |} :: split_range c e cuts'
      else split_range b e cuts'
  end.

(** Sub-ranges that are consecutive, non-empty and cover [b, e). *)
Fixpoint covers (b e : Z) (chunks : list blocked_range) : bool :=
  match chunks with
  | [] => e <=? b
  | r :: rest =>
      (r_begin r =? b) && (b <? r_end r) && (r_end r <=? e) && covers (r_end r) e rest
  end.

(** One step of the schedule: worker [k] performs its next operation. *)
Definition pick {A} (k : nat) (workers : list (list A)) : option (A * list (list A)) :=
  match workers !! k with
  | Some (a :: rest) => Some (a, <[k := rest]> workers)
  | _ => None
  end.

(** The operations of all workers in the order the schedule runs them; the
    join lets every worker finish what the schedule left over. *)
Fixpoint run_workers {A} (order : list nat) (workers : list (list A)) : list A :=
  match order with
  | [] => concat workers
  | k :: order' =>
      match pick k workers with
      | Some (a, workers') => a :: run_workers order' workers'
      | None => run_workers order' workers
      end
  end.

Definition step (st : par_state) (a : action) : par_state :=
  match a with
  | emit e =>
      {| individual_lp_ratios := individual_lp_ratios st;
         individual_samples := individual_samples st;
         lp_calls := lp_calls st;
         trace := trace st ++ [e] |}
  | push_lp_ratios r =>
      {| individual_lp_ratios := individual_lp_ratios st ++ [r];
         individual_samples := individual_samples st;
         lp_calls := lp_calls st;
         trace := trace st |}
  | push_samples s =>
      {| individual_lp_ratios := individual_lp_ratios st;
         individual_samples := individual_samples st ++ [s];
         lp_calls := lp_calls st;
         trace := trace st |}
  | add_lp_calls n =>
      {| individual_lp_ratios := individual_lp_ratios st;
         individual_samples := individual_samples st;
         lp_calls := to_size_t (lp_calls st + n);
         trace := trace st |}
  end.

(** ** Eigen block assignment *)

(** [v.segment(start, n) = src]. *)
Definition set_segment (v : list double) (start n : nat) (src : list double)
  : option (list double) :=
  if (start + n <=? length v)%nat && (length src =? n)%nat
  then Some (take start v ++ src ++ drop (start + n) v)
  else None.

(** [m.middleCols(start, n) = src]. *)
Definition set_middleCols (m : matrix) (start n : nat) (src : matrix) : option matrix :=
  if (start + n <=? cols m)%nat && (cols src =? n)%nat && (rows src =? rows m)%nat
  then Some {| mat_rows := mat_rows m;
               mat_cols := take start (mat_cols m) ++ mat_cols src
                           ++ drop (start + n) (mat_cols m) |}
  else None.

(** [m.col(j)], with [Eigen::Index] signed. *)
Definition col (m : matrix) (j : Z) : option (list double) :=
  if (0 <=? j) && (j <? Z.of_nat (cols m)) then mat_cols m !! Z.to_nat j else None.

(** ** Collaborators used by the examples *)

Module Demo.

Definition names : list string := ["mu"%string; "sigma"%string].

Definition SOFTWARE : Z := 70.

(** Path [iter] returns [iter + 1] draws of a model with two parameters. *)
Definition draw (iter k : Z) : list double :=
  [to_double iter; to_double k; to_double 0; to_double 1].

Definition draws (iter : Z) : list (list double) :=
  map (fun k => draw iter (Z.of_nat k)) (seq 0 (Z.to_nat (iter + 1))).

(** The runner: the paths in [failing] report failure after two
    evaluations, the others succeed after [10 + iter]. *)
Definition single (failing : list Z) (seed stream iter : Z) : single_ret :=
  if existsb (Z.eqb iter) failing
  then {| ret_code := SOFTWARE;
          ret_lp_ratios := [];
          ret_samples := {| mat_rows := 0; mat_cols := [] |};
          ret_lp_calls := 2 |}
  else {| ret_code := 0;
          ret_lp_ratios := map (fun _ => to_double 1) (draws iter);
          ret_samples := {| mat_rows := 4; mat_cols := draws iter |};
          ret_lp_calls := 10 + iter |}.

(** A runner whose paths all succeed with two draws each. *)
Definition single_two_draws (seed stream iter : Z) : single_ret :=
  {| ret_code := 0;
     ret_lp_ratios := [to_double 1; to_double 1];
     ret_samples := {| mat_rows := 4; mat_cols := [draw iter 0; draw iter 1] |};
     ret_lp_calls := 10 + iter |}.

Definition psis_same (lp_ratios : list double) (tail_len : double) : list double :=
  lp_ratios.

Definition psis_zero (lp_ratios : list double) (tail_len : double) : list double :=
  map (fun _ => to_double 0) lp_ratios.

Definition create_rng (seed stream : Z) : Z := seed + stream.

Definition rand_psis_idx (weights : list double) (g : Z) : Z * Z :=
  (g mod Z.of_nat (length weights), g + 1).

(** A generator that finds no weight to stop at and draws the index one
    past the last. *)
Definition rand_past_end (weights : list double) (g : Z) : Z * Z :=
  (Z.of_nat (length weights), g + 1).

Definition to_string_double (x : double) : string := "0.000000"%string.

Definition clk : clock :=
  {| start_pathfinders_time := 0;
     end_pathfinders_time := 1500000000;
     start_psis_time := 1500000000;
     end_psis_time := 1750000000 |}.

(** The choices of the pool: the range is run as one sub-range, or cut
    after every index. *)
Definition whole : list Z := [].

Definition one_each (n : Z) : list Z := seqZ 1 (n - 1).

End Demo.

Section Multi.

(** ** Collaborators *)

(** [model.constrained_param_names(param_names, true, true)]. *)
Variable constrained_param_names : list string.

(** [error_codes::SOFTWARE]; [error_codes.hpp] fixes its value. *)
Variable SOFTWARE : Z.

(** [pathfinder_lbfgs_single<true>], by the seed, the stream and the
    index that selects [init[iter]] and the per-path writers; every other
    argument is forwarded unchanged. *)
Variable pathfinder_lbfgs_single : Z -> Z -> Z -> single_ret.

(** [psis::psis_weights(lp_ratios, tail_len, logger)]. *)
Variable psis_weights : list double -> double -> list double.

(** [boost::ecuyer1988], [util::create_rng] and one call of the
    [variate_generator] over the [discrete_distribution] of the weights. *)
Variable rng : Type.
Variable create_rng : Z -> Z -> rng.
Variable rand_psis_idx : list double -> rng -> Z * rng.

(** [std::to_string(double)]. *)
Variable to_string_double : double -> string.

(** The content of freshly allocated array cells. *)
Variable uninit : double.

(** ** Lines 116-138: the parallel phase *)

(** The [for] loop of the body over [n] remaining indices from [iter]:
    the [return] on failure leaves the loop and the body. *)
Fixpoint for_body (random_seed path : Z) (n : nat) (iter : Z) : list action :=
  match n with
  | O => []
  | S n' =>
      let '(seed, stream) := single_path_seeding random_seed path iter in
      let pathfinder_ret := pathfinder_lbfgs_single seed stream iter in
      emit (call_single iter seed stream) ::
      if ret_code pathfinder_ret =? SOFTWARE
      then [emit (logger_info ("Pathfinder iteration: " +:+ to_string iter +:+ " failed."))]
      else push_lp_ratios (ret_lp_ratios pathfinder_ret) ::
           push_samples (ret_samples pathfinder_ret) ::
           add_lp_calls (ret_lp_calls pathfinder_ret) ::
           for_body random_seed path n' (iter + 1)
  end.

Definition body (random_seed path : Z) (r : blocked_range) : list action :=
  for_body random_seed path (Z.to_nat (r_end r - r_begin r)) (r_begin r).

(** The bodies of the sub-ranges [chunks], run by workers scheduled by
    [order], on the shared objects [st]. *)
Definition run_bodies (random_seed path : Z) (chunks : list blocked_range)
    (order : list nat) (st : par_state) : par_state :=
  fold_left step (run_workers order (map (body random_seed path) chunks)) st.

(** [tbb::parallel_for(tbb::blocked_range<int>(0, num_paths), body)]; the
    pool chooses [cuts] and [order]. *)
Definition parallel_for (random_seed path num_paths : Z) (cuts : list Z)
    (order : list nat) (st : par_state) : par_state :=
  run_bodies random_seed path (split_range 0 num_paths cuts) order st.

(** ** Lines 155-169: aggregation *)

Definition num_returned (lp : list (list double)) : nat :=
  sum_list_with length lp.

(** The loop of lines 162-169 with [n] iterations left. *)
Fixpoint fill_loop (lp : list (list double)) (sm : list matrix) (n i : nat)
    (filling_start_row : nat) (lp_ratios : list double) (samples : matrix)
  : option (list double * matrix) :=
  match n with
  | O => Some (lp_ratios, samples)
  | S n' =>
      match lp !! i, sm !! i with
      | Some ilpr, Some ismp =>
          let individ_num_samples := length ilpr in
          match set_segment lp_ratios filling_start_row individ_num_samples ilpr with
          | Some lp_ratios' =>
              match set_middleCols samples filling_start_row individ_num_samples ismp with
              | Some samples' =>
                  fill_loop lp sm n' (S i) (filling_start_row + individ_num_samples)%nat
                            lp_ratios' samples'
              | None => None
              end
          | None => None
          end
      | _, _ => None
      end
  end.

Definition aggregate (lp : list (list double)) (sm : list matrix)
  : option (list double * matrix) :=
  match sm with
  | [] => None
  | first :: _ =>
      let num_returned_samples := num_returned lp in
      fill_loop lp sm (length sm) 0 0
        (replicate num_returned_samples uninit)
        {| mat_rows := rows first;
           mat_cols := replicate num_returned_samples (replicate (rows first) uninit) |}
  end.

(** ** Lines 184-186: the draw loop *)

(** [for (size_t i = 0; i <= num_multi_draws - 1; ++i)]: the bound is an
    [int] and is converted to [size_t] for the comparison.  The result is
    [returned 0] when the loop is left, [assert_failed] when a drawn index
    names no column, [running] when the fuel is spent inside the loop;
    with it come the rows written so far. *)
Fixpoint draw_loop (num_multi_draws : Z) (weight_vals : list double) (samples : matrix)
    (fuel : nat) (i : Z) (g : rng) : outcome * list event :=
  match fuel with
  | O => (running, [])
  | S fuel' =>
      if i <=? to_size_t (num_multi_draws - 1)
      then
        let '(j, g') := rand_psis_idx weight_vals g in
        match col samples j with
        | Some c =>
            let '(o, tr) := draw_loop num_multi_draws weight_vals samples fuel'
                                      (to_size_t (i + 1)) g' in
            (o, param_draw c :: tr)
        | None => (assert_failed, [])
        end
      else (returned 0, [])
  end.

(** ** Lines 189-204: the timing report *)

Definition time_header : string := "Elapsed Time: ".

Definition timing_report (clk : clock) : list event :=
  let pathfinders_delta_time :=
    duration_seconds (start_pathfinders_time clk) (end_pathfinders_time clk) in
  let psis_delta_time := duration_seconds (start_psis_time clk) (end_psis_time clk) in
  let optim_time_str :=
    time_header +:+ to_string_double pathfinders_delta_time +:+ " seconds (Pathfinders)" in
  let psis_time_str :=
    string_fill (String.length time_header) " "%char
    +:+ to_string_double psis_delta_time +:+ " seconds (PSIS)" in
  let total_time_str :=
    string_fill (String.length time_header) " "%char
    +:+ to_string_double (PrimFloat.add pathfinders_delta_time psis_delta_time)
    +:+ " seconds (Total)" in
  [param_blank; param_text optim_time_str; param_text psis_time_str;
   param_text total_time_str; param_blank].

(** ** The function *)

Definition header : list event :=
  let param_names := constrained_param_names ++ ["lp_approx__"%string; "lp__"%string] in
  [param_names_row param_names; diag_names_row param_names].

(** Lines 145-204, from the shared objects as the join left them. *)
Definition after_join (random_seed path refresh num_multi_draws : Z) (clk : clock)
    (fuel : nat) (st : par_state) : outcome * list event :=
  let successful_pathfinders := length (individual_samples st) in
  if (successful_pathfinders =? 0)%nat
  then (returned SOFTWARE, trace st ++ [logger_info "No pathfinders ran successfully"])
  else
    let tr1 :=
      trace st ++
      (if refresh =? 0 then []
       else [logger_info ("Total log probability function evaluations:"
                          +:+ to_string (lp_calls st))]) in
    match aggregate (individual_lp_ratios st) (individual_samples st) with
    | None => (assert_failed, tr1)
    | Some (lp_ratios, samples) =>
        let num_returned_samples := num_returned (individual_lp_ratios st) in
        let tail_len := tail_len_of (Z.of_nat num_returned_samples) in
        let weight_vals := psis_weights lp_ratios tail_len in
        let '(seed, stream) := psis_seeding random_seed path in
        let g := create_rng seed stream in
        let tr2 := tr1 ++ [call_psis_weights lp_ratios tail_len; call_create_rng seed stream] in
        match draw_loop num_multi_draws weight_vals samples fuel 0 g with
        | (returned _, draws) => (returned 0, tr2 ++ draws ++ timing_report clk)
        | (o, draws) => (o, tr2 ++ draws)
        end
    end.

(** Lines 104-115: the header is written, the shared objects are empty. *)
Definition initial_state : par_state :=
  {| individual_lp_ratios := [];
     individual_samples := [];
     lp_calls := 0;
     trace := header |}.

(** [cuts] and [order] are the choices of the thread pool, [clk] the
    readings of the clock, [fuel] the number of iterations the draw loop
    is followed for. *)
Definition pathfinder_lbfgs_multi (random_seed path refresh num_multi_draws num_paths : Z)
    (cuts : list Z) (order : list nat) (clk : clock) (fuel : nat)
  : outcome * list event :=
  after_join random_seed path refresh num_multi_draws clk fuel
             (parallel_for random_seed path num_paths cuts order initial_state).

(** ** What reaches each sink *)

Definition to_parameter_writer (e : event) : bool :=
  match e with
  | param_names_row _ | param_draw _ | param_blank | param_text _ => true
  | _ => false
  end.

Definition to_diagnostic_writer (e : event) : bool :=
  match e with
  | diag_names_row _ => true
  | _ => false
  end.

Definition is_draw (e : event) : bool :=
  match e with
  | param_draw _ => true
  | _ => false
  end.

(** The calls a worker makes: the runner and the logger. *)
Definition is_path_event (e : event) : bool :=
  match e with
  | call_single _ _ _ | logger_info _ => true
  | _ => false
  end.

(** ** What a list of worker operations amounts to *)

Definition emitted (l : list action) : list event :=
  omap (fun a => match a with emit e => Some e | _ => None end) l.

Definition pushed_lp_ratios (l : list action) : list (list double) :=
  omap (fun a => match a with push_lp_ratios r => Some r | _ => None end) l.

Definition pushed_samples (l : list action) : list matrix :=
  omap (fun a => match a with push_samples s => Some s | _ => None end) l.

Definition added (l : list action) : list Z :=
  omap (fun a => match a with add_lp_calls n => Some n | _ => None end) l.

(** What the runner returns for path [iter]. *)
Definition path_ret (random_seed path iter : Z) : single_ret :=
  pathfinder_lbfgs_single (fst (single_path_seeding random_seed path iter))
                          (snd (single_path_seeding random_seed path iter)) iter.

Definition failed (random_seed path iter : Z) : bool :=
  ret_code (path_ret random_seed path iter) =? SOFTWARE.

(** The indices among [n] consecutive ones from [iter] that come before
    the first failing one. *)
Fixpoint before_failure (random_seed path : Z) (n : nat) (iter : Z) : list Z :=
  match n with
  | O => []
  | S n' =>
      if failed random_seed path iter then []
      else iter :: before_failure random_seed path n' (iter + 1)
  end.

(** The paths of a sub-range whose results reach the shared vectors. *)
Definition collected (random_seed path : Z) (r : blocked_range) : list Z :=
  before_failure random_seed path (Z.to_nat (r_end r - r_begin r)) (r_begin r).

(** The paths of a sub-range the body calls the runner for. *)
Definition executed (random_seed path : Z) (r : blocked_range) : list Z :=
  omap (fun e => match e with call_single iter _ _ => Some iter | _ => None end)
       (emitted (body random_seed path r)).

(** Every index the generator can draw names a column of [samples]. *)
Definition draws_in_range (weight_vals : list double) (samples : matrix) : Prop :=
  forall g, is_Some (col samples (fst (rand_psis_idx weight_vals g))).

(** A call that writes to neither sink; a call of the weight routine
    passes the tail length computed from the length of the ratios. *)
Definition internal_call (e : event) : Prop :=
  to_parameter_writer e = false /\ to_diagnostic_writer e = false /\
  match e with
  | call_psis_weights lp_ratios tail_len =>
      tail_len = tail_len_of (Z.of_nat (length lp_ratios))
  | _ => True
  end.

(** The path indices of the runner calls of a trace, in order. *)
Definition run_indices (tr : list event) : list Z :=
  omap (fun e => match e with call_single iter _ _ => Some iter | _ => None end) tr.

(** The indices the generator draws in [n] calls, from state [g] on. *)
Fixpoint drawn_indices (weight_vals : list double) (n : nat) (g : rng) : list Z :=
  match n with
  | O => []
  | S n' =>
      let '(j, g') := rand_psis_idx weight_vals g in
      j :: drawn_indices weight_vals n' g'
  end.

(** The calls made once the parallel phase is over: neither a header row
    nor a call of the runner. *)
Definition after_join_event (e : event) : bool :=
  match e with
  | call_single _ _ _ | param_names_row _ | diag_names_row _ => false
  | _ => true
  end.

(** A [logger.info] call of the function's own code.  The logger is also
    handed to the runner (line 124) and to [psis_weights] (line 173); what
    they write to it is not part of the trace. *)
Definition is_log (e : event) : bool :=
  match e with
  | logger_info _ => true
  | _ => false
  end.

(** The index names a column of the matrix. *)
Definition has_col (samples : matrix) (j : Z) : bool :=
  match col samples j with
  | Some _ => true
  | None => false
  end.

(** The rows written for drawn indices: the column of each, up to the
    first index that names no column. *)
Fixpoint rows_of (samples : matrix) (indices : list Z) : list event :=
  match indices with
  | [] => []
  | j :: rest =>
      match col samples j with
      | Some c => param_draw c :: rows_of samples rest
      | None => []
      end
  end.

(** ** Interleaving *)

Lemma pick_Permutation {A} (k : nat) (ws ws' : list (list A)) (a : A) :
  pick k ws = Some (a, ws') -> Permutation (concat ws) (a :: concat ws').
Proof.
  unfold pick. destruct (ws !! k) as [[|b rest]|] eqn:E; try discriminate.
  intros [= <- <-].
  rewrite <- (take_drop_middle ws k (b :: rest) E) at 1.
  rewrite insert_take_drop by (eapply lookup_lt_Some; eauto).
  rewrite !concat_app. simpl.
  symmetry. apply Permutation_middle.
Qed.

Lemma run_workers_Permutation {A} (order : list nat) (ws : list (list A)) :
  Permutation (run_workers order ws) (concat ws).
Proof.
  revert ws. induction order as [|k order IH]; intros ws; simpl.
  - reflexivity.
  - destruct (pick k ws) as [[a ws']|] eqn:E.
    + rewrite (pick_Permutation _ _ _ _ E). constructor. apply IH.
    + apply IH.
Qed.

Lemma run_workers_single {A} (order : list nat) (w : list A) :
  run_workers order [w] = w.
Proof.
  revert w. induction order as [|k order IH]; intros w; simpl.
  - apply app_nil_r.
  - unfold pick. destruct k as [|k]; simpl.
    + destruct w as [|a rest]; [apply IH|]. f_equal. apply IH.
    + apply IH.
Qed.

Lemma run_workers_nil {A} (order : list nat) : @run_workers A order [] = [].
Proof. induction order as [|k order IH]; simpl; auto. Qed.

(** ** The shared objects after a list of operations *)

Lemma fold_step_trace (l : list action) (st : par_state) :
  trace (fold_left step l st) = trace st ++ emitted l.
Proof.
  revert st. induction l as [|a l IH]; intros st; simpl.
  - symmetry. apply app_nil_r.
  - rewrite IH. destruct a; simpl; auto. rewrite <- app_assoc. reflexivity.
Qed.

Lemma fold_step_samples (l : list action) (st : par_state) :
  individual_samples (fold_left step l st) = individual_samples st ++ pushed_samples l.
Proof.
  revert st. induction l as [|a l IH]; intros st; simpl.
  - symmetry. apply app_nil_r.
  - rewrite IH. destruct a; simpl; auto. rewrite <- app_assoc. reflexivity.
Qed.

Lemma fold_step_lp_ratios (l : list action) (st : par_state) :
  individual_lp_ratios (fold_left step l st)
  = individual_lp_ratios st ++ pushed_lp_ratios l.
Proof.
  revert st. induction l as [|a l IH]; intros st; simpl.
  - symmetry. apply app_nil_r.
  - rewrite IH. destruct a; simpl; auto. rewrite <- app_assoc. reflexivity.
Qed.

Lemma to_size_t_idem (z : Z) : to_size_t (to_size_t z) = to_size_t z.
Proof. unfold to_size_t. apply Z.mod_mod. lia. Qed.

Lemma fold_step_lp_calls (l : list action) (st : par_state) :
  to_size_t (lp_calls (fold_left step l st)) = to_size_t (lp_calls st + Zsum (added l)).
Proof.
  revert st. induction l as [|a l IH]; intros st; simpl.
  - f_equal. lia.
  - rewrite IH. destruct a; simpl; auto.
    unfold to_size_t. rewrite Zplus_mod_idemp_l. f_equal. lia.
Qed.

Lemma fold_step_lp_calls_range (l : list action) (st : par_state) :
  0 <= lp_calls st < 2 ^ 64 -> 0 <= lp_calls (fold_left step l st) < 2 ^ 64.
Proof.
  revert st. induction l as [|a l IH]; intros st H; simpl; auto.
  apply IH. destruct a; simpl; auto. unfold to_size_t. apply Z.mod_pos_bound. lia.
Qed.

Lemma Zsum_Permutation (l l' : list Z) : Permutation l l' -> Zsum l = Zsum l'.
Proof. induction 1; simpl; lia. Qed.

Lemma Zsum_app (l l' : list Z) : Zsum (l ++ l') = Zsum l + Zsum l'.
Proof. induction l; simpl; lia. Qed.

(** ** The body of the parallel loop *)

Section Body.

Variables random_seed path : Z.

Lemma for_body_unfold (n : nat) (iter : Z) :
  for_body random_seed path (S n) iter =
  emit (call_single iter random_seed (to_unsigned (path + iter))) ::
  if failed random_seed path iter
  then [emit (logger_info ("Pathfinder iteration: " +:+ to_string iter +:+ " failed."))]
  else push_lp_ratios (ret_lp_ratios (path_ret random_seed path iter)) ::
       push_samples (ret_samples (path_ret random_seed path iter)) ::
       add_lp_calls (ret_lp_calls (path_ret random_seed path iter)) ::
       for_body random_seed path n (iter + 1).
Proof. reflexivity. Qed.

Lemma for_body_added (n : nat) (iter : Z) :
  added (for_body random_seed path n iter)
  = map (fun i => ret_lp_calls (path_ret random_seed path i))
        (before_failure random_seed path n iter).
Proof.
  revert iter. induction n as [|n IH]; intros iter; [reflexivity|].
  rewrite for_body_unfold. cbn [before_failure].
  destruct (failed random_seed path iter); [reflexivity|].
  cbn. f_equal. apply IH.
Qed.

Lemma for_body_pushed_samples (n : nat) (iter : Z) :
  pushed_samples (for_body random_seed path n iter)
  = map (fun i => ret_samples (path_ret random_seed path i))
        (before_failure random_seed path n iter).
Proof.
  revert iter. induction n as [|n IH]; intros iter; [reflexivity|].
  rewrite for_body_unfold. cbn [before_failure].
  destruct (failed random_seed path iter); [reflexivity|].
  cbn. f_equal. apply IH.
Qed.

Lemma for_body_pushed_lp_ratios (n : nat) (iter : Z) :
  pushed_lp_ratios (for_body random_seed path n iter)
  = map (fun i => ret_lp_ratios (path_ret random_seed path i))
        (before_failure random_seed path n iter).
Proof.
  revert iter. induction n as [|n IH]; intros iter; [reflexivity|].
  rewrite for_body_unfold. cbn [before_failure].
  destruct (failed random_seed path iter); [reflexivity|].
  cbn. f_equal. apply IH.
Qed.

Lemma for_body_path_events (n : nat) (iter : Z) :
  Forall (fun e => is_path_event e = true) (emitted (for_body random_seed path n iter)).
Proof.
  revert iter. induction n as [|n IH]; intros iter; [constructor|].
  rewrite for_body_unfold.
  destruct (failed random_seed path iter); cbn.
  - repeat constructor.
  - constructor; [reflexivity|]. apply IH.
Qed.

(** A failing path ends the body: with it at the head of the
    sub-range, the runner is called for no other index. *)
Lemma for_body_failed_head (n : nat) (iter : Z) :
  failed random_seed path iter = true ->
  for_body random_seed path (S n) iter =
  [emit (call_single iter random_seed (to_unsigned (path + iter)));
   emit (logger_info ("Pathfinder iteration: " +:+ to_string iter +:+ " failed."))].
Proof. intros H. rewrite for_body_unfold, H. reflexivity. Qed.

Lemma before_failure_all_failed (n : nat) (iter : Z) :
  (forall i, iter <= i < iter + Z.of_nat n -> failed random_seed path i = true) ->
  before_failure random_seed path n iter = [].
Proof.
  destruct n as [|n]; [reflexivity|]. intros H. cbn [before_failure].
  rewrite H by lia. reflexivity.
Qed.

Lemma before_failure_none_failed (n : nat) (iter : Z) :
  (forall i, iter <= i < iter + Z.of_nat n -> failed random_seed path i = false) ->
  before_failure random_seed path n iter = seqZ iter (Z.of_nat n).
Proof.
  revert iter. induction n as [|n IH]; intros iter H; [reflexivity|].
  cbn [before_failure]. rewrite H by lia.
  replace (Z.of_nat (S n)) with (Z.succ (Z.of_nat n)) by lia.
  rewrite seqZ_cons by lia. f_equal.
  replace (Z.pred (Z.succ (Z.of_nat n))) with (Z.of_nat n) by lia.
  apply IH. intros i Hi. apply H. lia.
Qed.

(** The sub-ranges lie inside the range they cover. *)
Lemma covers_bounds (b e : Z) (chunks : list blocked_range) (r : blocked_range) :
  covers b e chunks = true -> In r chunks -> b <= r_begin r /\ r_begin r < r_end r <= e.
Proof.
  revert b. induction chunks as [|c chunks IH]; intros b Hc Hin; [destruct Hin|].
  simpl in Hc. rewrite !andb_true_iff in Hc. destruct Hc as [[[H1 H2] H3] H4].
  destruct Hin as [<-|Hin].
  - lia.
  - specialize (IH _ H4 Hin). lia.
Qed.

Lemma covers_empty (b e : Z) (chunks : list blocked_range) :
  e <= b -> covers b e chunks = true -> chunks = [].
Proof.
  intros He Hc. destruct chunks as [|c chunks]; [reflexivity|].
  simpl in Hc. rewrite !andb_true_iff in Hc. lia.
Qed.

Lemma split_range_covers (b e : Z) (cuts : list Z) :
  covers b e (split_range b e cuts) = true.
Proof.
  revert b. induction cuts as [|c cuts IH]; intros b; cbn [split_range].
  - destruct (b <? e) eqn:E; simpl.
    + rewrite Z.eqb_refl, E, Z.leb_refl. reflexivity.
    + apply Z.leb_le. apply Z.ltb_ge in E. exact E.
  - destruct ((b <? c) && (c <? e)) eqn:E; [|apply IH].
    apply andb_true_iff in E. destruct E as [E1 E2]. simpl.
    rewrite Z.eqb_refl, E1, IH. simpl.
    rewrite andb_true_r. apply Z.leb_le. apply Z.ltb_lt in E2. lia.
Qed.

Lemma split_range_empty (b e : Z) (cuts : list Z) : e <= b -> split_range b e cuts = [].
Proof. intros He. eapply covers_empty; [exact He | apply split_range_covers]. Qed.

(** *** The shared objects after the join *)

Lemma omap_concat {A B} (f : A -> option B) (ls : list (list A)) :
  omap f (concat ls) = concat (map (omap f) ls).
Proof.
  induction ls as [|l ls IH]; [reflexivity|].
  simpl. rewrite omap_app, IH. reflexivity.
Qed.

Lemma run_bodies_trace chunks order st :
  trace (run_bodies random_seed path chunks order st)
  = trace st ++ emitted (run_workers order (map (body random_seed path) chunks)).
Proof. apply fold_step_trace. Qed.

Lemma run_bodies_path_events chunks order :
  Forall (fun e => is_path_event e = true)
         (emitted (run_workers order (map (body random_seed path) chunks))).
Proof.
  unfold emitted. rewrite run_workers_Permutation, omap_concat.
  apply Forall_concat, Forall_map, Forall_map, Forall_forall.
  intros r _. apply for_body_path_events.
Qed.

Lemma run_bodies_samples chunks order st :
  Permutation
    (individual_samples (run_bodies random_seed path chunks order st))
    (individual_samples st ++
     map (fun i => ret_samples (path_ret random_seed path i))
         (concat (map (collected random_seed path) chunks))).
Proof.
  unfold run_bodies. rewrite fold_step_samples. apply Permutation_app_head.
  unfold pushed_samples. rewrite run_workers_Permutation, omap_concat.
  rewrite map_map, concat_map, map_map.
  erewrite map_ext; [reflexivity|].
  intros r. apply for_body_pushed_samples.
Qed.

Lemma run_bodies_lp_ratios chunks order st :
  Permutation
    (individual_lp_ratios (run_bodies random_seed path chunks order st))
    (individual_lp_ratios st ++
     map (fun i => ret_lp_ratios (path_ret random_seed path i))
         (concat (map (collected random_seed path) chunks))).
Proof.
  unfold run_bodies. rewrite fold_step_lp_ratios. apply Permutation_app_head.
  unfold pushed_lp_ratios. rewrite run_workers_Permutation, omap_concat.
  rewrite map_map, concat_map, map_map.
  erewrite map_ext; [reflexivity|].
  intros r. apply for_body_pushed_lp_ratios.
Qed.

Lemma run_bodies_lp_calls chunks order st :
  0 <= lp_calls st < 2 ^ 64 ->
  lp_calls (run_bodies random_seed path chunks order st)
  = to_size_t (lp_calls st +
               Zsum (map (fun i => ret_lp_calls (path_ret random_seed path i))
                         (concat (map (collected random_seed path) chunks)))).
Proof.
  intros Hst. unfold run_bodies.
  pose proof (fold_step_lp_calls
                (run_workers order (map (body random_seed path) chunks)) st) as H.
  pose proof (fold_step_lp_calls_range
                (run_workers order (map (body random_seed path) chunks)) st Hst) as Hr.
  unfold to_size_t in H at 1. rewrite Z.mod_small in H by exact Hr.
  rewrite H. f_equal. f_equal. apply Zsum_Permutation.
  unfold added. rewrite run_workers_Permutation, omap_concat.
  rewrite map_map, concat_map, map_map.
  erewrite map_ext; [reflexivity|].
  intros r. apply for_body_added.
Qed.

End Body.

(** ** Aggregation *)

Lemma length_concat_sum (ls : list (list double)) :
  length (concat ls) = num_returned ls.
Proof.
  induction ls as [|l ls IH]; [reflexivity|].
  simpl. rewrite List.length_app, IH. reflexivity.
Qed.

Lemma set_segment_length v start n src v' :
  set_segment v start n src = Some v' -> length v' = length v.
Proof.
  unfold set_segment.
  destruct ((start + n <=? length v)%nat && (length src =? n)%nat) eqn:E; [|discriminate].
  apply andb_true_iff in E. destruct E as [E1 E2].
  apply Nat.leb_le in E1. apply Nat.eqb_eq in E2.
  intros [= <-]. rewrite !List.length_app, length_take, length_drop. lia.
Qed.

Lemma set_segment_fill (A src : list double) (m : nat) (x : double) :
  set_segment (A ++ replicate (length src + m) x) (length A) (length src) src
  = Some ((A ++ src) ++ replicate m x).
Proof.
  unfold set_segment.
  rewrite List.length_app, length_replicate.
  replace (length A + length src <=? length A + (length src + m))%nat with true
    by (symmetry; apply Nat.leb_le; lia).
  rewrite Nat.eqb_refl. simpl.
  rewrite take_app_length, drop_app_add, drop_replicate_add, <- app_assoc. reflexivity.
Qed.

Lemma set_middleCols_fill (rws : nat) (B : list (list double)) (src : matrix) (m : nat)
    (c : list double) :
  rows src = rws ->
  set_middleCols {| mat_rows := rws; mat_cols := B ++ replicate (cols src + m) c |}
                 (length B) (cols src) src
  = Some {| mat_rows := rws; mat_cols := (B ++ mat_cols src) ++ replicate m c |}.
Proof.
  intros Hr. unfold set_middleCols, cols, rows in *. simpl.
  rewrite List.length_app, length_replicate.
  replace (length B + length (mat_cols src)
           <=? length B + (length (mat_cols src) + m))%nat with true
    by (symmetry; apply Nat.leb_le; lia).
  rewrite Nat.eqb_refl, Hr, Nat.eqb_refl. simpl.
  rewrite take_app_length, drop_app_add, drop_replicate_add, <- app_assoc. reflexivity.
Qed.

(** The loop, started after the blocks [A] and [B] of equal width, fills
    the rest of both arrays with the remaining paths in order. *)
Lemma fill_loop_spec (lp : list (list double)) (sm : list matrix) (rws : nat)
    (c : list double) (rest_lp : list (list double)) (rest_sm : list matrix) :
  Forall2 (fun r s => length r = cols s /\ rows s = rws) rest_lp rest_sm ->
  forall done_lp done_sm A B,
    lp = done_lp ++ rest_lp -> sm = done_sm ++ rest_sm ->
    length done_lp = length done_sm -> length A = length B ->
    fill_loop lp sm (length rest_sm) (length done_sm) (length A)
              (A ++ replicate (num_returned rest_lp) uninit)
              {| mat_rows := rws; mat_cols := B ++ replicate (num_returned rest_lp) c |}
    = Some (A ++ concat rest_lp,
            {| mat_rows := rws; mat_cols := B ++ concat (map mat_cols rest_sm) |}).
Proof.
  induction 1 as [|r s rl sl [Hlen Hrows] HF IH]; intros done_lp done_sm A B Hlp Hsm Hd HAB.
  - simpl. rewrite !app_nil_r. reflexivity.
  - cbn [length fill_loop].
    assert (lp !! length done_sm = Some r) as ->.
    { rewrite Hlp, <- Hd. apply list_lookup_middle. reflexivity. }
    assert (sm !! length done_sm = Some s) as ->.
    { rewrite Hsm. apply list_lookup_middle. reflexivity. }
    unfold num_returned. cbn [sum_list_with]. fold (num_returned rl).
    rewrite set_segment_fill.
    rewrite HAB, Hlen, set_middleCols_fill by exact Hrows.
    specialize (IH (done_lp ++ [r]) (done_sm ++ [s]) (A ++ r) (B ++ mat_cols s)).
    rewrite !List.length_app in IH. simpl in IH.
    replace (length done_sm + 1)%nat with (S (length done_sm)) in IH by lia.
    replace (length B + cols s)%nat with (length A + length r)%nat by lia.
    rewrite IH.
    + simpl. rewrite <- !app_assoc. reflexivity.
    + rewrite <- app_assoc. exact Hlp.
    + rewrite <- app_assoc. exact Hsm.
    + lia.
    + unfold cols in Hlen. lia.
Qed.

Lemma aggregate_spec (lp : list (list double)) (first : matrix) (sm : list matrix) :
  Forall2 (fun r s => length r = cols s /\ rows s = rows first) lp (first :: sm) ->
  aggregate lp (first :: sm)
  = Some (concat lp,
          {| mat_rows := rows first; mat_cols := concat (map mat_cols (first :: sm)) |}).
Proof.
  intros HF. unfold aggregate.
  exact (fill_loop_spec lp (first :: sm) (rows first) (replicate (rows first) uninit)
           lp (first :: sm) HF [] [] [] [] eq_refl eq_refl eq_refl eq_refl).
Qed.

Lemma fill_loop_length lp sm n i start v m v' m' :
  fill_loop lp sm n i start v m = Some (v', m') -> length v' = length v.
Proof.
  revert i start v m. induction n as [|n IH]; intros i start v m; cbn [fill_loop].
  - intros [= <- <-]. reflexivity.
  - destruct (lp !! i) as [ilpr|]; [|discriminate].
    destruct (sm !! i) as [ismp|]; [|discriminate].
    destruct (set_segment v start (length ilpr) ilpr) as [v1|] eqn:E1; [|discriminate].
    destruct (set_middleCols m start (length ilpr) ismp) as [m1|]; [|discriminate].
    intros H. rewrite (IH _ _ _ _ H). eapply set_segment_length; eauto.
Qed.

Lemma aggregate_length lp sm lp_ratios samples :
  aggregate lp sm = Some (lp_ratios, samples) -> length lp_ratios = num_returned lp.
Proof.
  unfold aggregate. destruct sm as [|first sm]; [discriminate|].
  intros H. rewrite (fill_loop_length _ _ _ _ _ _ _ _ _ H).
  apply length_replicate.
Qed.

(** The block of path [i] inside a concatenation. *)
Lemma concat_block {A} (ls : list (list A)) (i : nat) (x : list A) :
  ls !! i = Some x ->
  take (length x) (drop (length (concat (take i ls))) (concat ls)) = x.
Proof.
  intros H. rewrite <- (take_drop_middle ls i x H) at 2.
  rewrite concat_app. simpl.
  rewrite drop_app_length, take_app_length. reflexivity.
Qed.

(** ** The draw loop *)

Lemma draw_loop_shape M w sm fuel i g o tr :
  draw_loop M w sm fuel i g = (o, tr) ->
  Forall (fun e => is_draw e = true) tr /\
  (o = returned 0 \/ o = assert_failed \/ o = running).
Proof.
  revert i g o tr. induction fuel as [|fuel IH]; intros i g o tr; cbn [draw_loop].
  - intros [= <- <-]. split; [constructor | auto].
  - destruct (i <=? to_size_t (M - 1)).
    + destruct (rand_psis_idx w g) as [j g'].
      destruct (col sm j) as [c|].
      * destruct (draw_loop M w sm fuel (to_size_t (i + 1)) g') as [o1 tr1] eqn:E.
        intros [= <- <-]. destruct (IH _ _ _ _ E) as [H1 H2].
        split; [constructor; [reflexivity | exact H1] | exact H2].
      * intros [= <- <-]. split; [constructor | auto].
    + intros [= <- <-]. split; [constructor | auto].
Qed.

(** From [i], with [k] draws to go, the loop leaves after [k] rows. *)
Lemma draw_loop_returns M w sm :
  1 <= M < 2 ^ 63 -> draws_in_range w sm ->
  forall (k fuel : nat) i g,
    0 <= i -> i + Z.of_nat k = M -> (k < fuel)%nat ->
    exists draws,
      draw_loop M w sm fuel i g = (returned 0, draws) /\
      length draws = k /\ Forall (fun e => is_draw e = true) draws.
Proof.
  intros HM Hcol.
  assert (to_size_t (M - 1) = M - 1) as Hb by (apply Z.mod_small; lia).
  induction k as [|k IH]; intros fuel i g Hi Hk Hf;
    (destruct fuel as [|fuel]; [lia|]); cbn [draw_loop]; rewrite Hb.
  - replace (i <=? M - 1) with false by (symmetry; apply Z.leb_gt; lia).
    exists []. repeat split. constructor.
  - replace (i <=? M - 1) with true by (symmetry; apply Z.leb_le; lia).
    specialize (Hcol g). destruct (rand_psis_idx w g) as [j g']. simpl in Hcol.
    destruct Hcol as [c ->].
    assert (to_size_t (i + 1) = i + 1) as -> by (apply Z.mod_small; lia).
    destruct (IH fuel (i + 1) g') as (draws & -> & Hlen & Hd); try lia.
    exists (param_draw c :: draws). simpl. repeat split; [lia|].
    constructor; [reflexivity | exact Hd].
Qed.

(** With [num_multi_draws = 0] the bound [-1] becomes the largest
    [size_t]: the comparison holds for every [i], and every iteration
    writes a row. *)
Lemma draw_loop_never_exits w sm :
  draws_in_range w sm ->
  forall (fuel : nat) i g,
    0 <= i < 2 ^ 64 ->
    exists draws,
      draw_loop 0 w sm fuel i g = (running, draws) /\
      length draws = fuel /\ Forall (fun e => is_draw e = true) draws.
Proof.
  intros Hcol. induction fuel as [|fuel IH]; intros i g Hi; cbn [draw_loop].
  - exists []. repeat split. constructor.
  - assert (to_size_t (0 - 1) = 2 ^ 64 - 1) as -> by reflexivity.
    replace (i <=? 2 ^ 64 - 1) with true by (symmetry; apply Z.leb_le; lia).
    specialize (Hcol g). destruct (rand_psis_idx w g) as [j g']. simpl in Hcol.
    destruct Hcol as [c ->].
    destruct (IH (to_size_t (i + 1)) g') as (draws & -> & Hlen & Hd).
    { unfold to_size_t. apply Z.mod_pos_bound. lia. }
    exists (param_draw c :: draws). simpl. repeat split; [lia|].
    constructor; [reflexivity | exact Hd].
Qed.

(** ** After the join *)

Lemma after_join_no_success random_seed path refresh M clk fuel st :
  individual_samples st = [] ->
  after_join random_seed path refresh M clk fuel st
  = (returned SOFTWARE, trace st ++ [logger_info "No pathfinders ran successfully"]).
Proof. intros H. unfold after_join. rewrite H. reflexivity. Qed.

Lemma timing_report_sinks clk :
  List.filter to_parameter_writer (timing_report clk) = timing_report clk /\
  List.filter to_diagnostic_writer (timing_report clk) = [].
Proof. split; reflexivity. Qed.

(** The calls made after the join, whatever the outcome: internal ones,
    then draw rows, then the timing report or nothing. *)
Lemma after_join_trace random_seed path refresh M clk fuel st o tr :
  after_join random_seed path refresh M clk fuel st = (o, tr) ->
  exists mid draws tail,
    tr = trace st ++ mid ++ draws ++ tail /\
    Forall internal_call mid /\
    Forall (fun e => is_draw e = true) draws /\
    (tail = [] \/ tail = timing_report clk) /\
    (SOFTWARE <> 0 -> o = returned 0 -> tail = timing_report clk).
Proof.
  unfold after_join.
  destruct (length (individual_samples st) =? 0)%nat.
  { intros [= <- <-]. exists [logger_info "No pathfinders ran successfully"], [], [].
    repeat split; auto.
    - repeat constructor.
    - intros Hs [= H]. congruence. }
  set (logs := if refresh =? 0 then []
               else [logger_info ("Total log probability function evaluations:"
                                  +:+ to_string (lp_calls st))]).
  assert (Forall internal_call logs) as Hlogs.
  { subst logs. destruct (refresh =? 0); repeat constructor. }
  destruct (aggregate (individual_lp_ratios st) (individual_samples st))
    as [[lp_ratios samples]|] eqn:Hagg.
  2:{ intros [= <- <-]. exists logs, [], []. rewrite !app_nil_r.
      repeat split; auto. intros _ [=]. }
  cbn zeta. unfold psis_seeding.
  set (tl := tail_len_of (Z.of_nat (num_returned (individual_lp_ratios st)))).
  destruct (draw_loop M (psis_weights lp_ratios tl) samples fuel 0
                      (create_rng random_seed path)) as [o1 draws] eqn:Hloop.
  destruct (draw_loop_shape _ _ _ _ _ _ _ _ Hloop) as [Hd Ho].
  assert (Forall internal_call
                 (logs ++ [call_psis_weights lp_ratios tl; call_create_rng random_seed path]))
    as Hmid.
  { apply Forall_app; split; [exact Hlogs|].
    repeat constructor. subst tl. rewrite (aggregate_length _ _ _ _ Hagg). reflexivity. }
  destruct Ho as [-> | [-> | ->]]; intros [= <- <-].
  - exists (logs ++ [call_psis_weights lp_ratios tl; call_create_rng random_seed path]),
           draws, (timing_report clk).
    rewrite <- !app_assoc. repeat split; auto.
  - exists (logs ++ [call_psis_weights lp_ratios tl; call_create_rng random_seed path]),
           draws, [].
    rewrite <- !app_assoc, app_nil_r. repeat split; auto. intros _ [=].
  - exists (logs ++ [call_psis_weights lp_ratios tl; call_create_rng random_seed path]),
           draws, [].
    rewrite <- !app_assoc, app_nil_r. repeat split; auto. intros _ [=].
Qed.

(** With at least one collected path, arrays that fit, indices in range
    and a positive number of draws, the call returns 0 after exactly
    [num_multi_draws] rows and the timing report. *)
Lemma after_join_returns random_seed path refresh M clk fuel st lp_ratios samples :
  individual_samples st <> [] ->
  aggregate (individual_lp_ratios st) (individual_samples st) = Some (lp_ratios, samples) ->
  draws_in_range
    (psis_weights lp_ratios (tail_len_of (Z.of_nat (num_returned (individual_lp_ratios st)))))
    samples ->
  1 <= M < 2 ^ 63 -> (Z.to_nat M < fuel)%nat ->
  exists mid draws,
    after_join random_seed path refresh M clk fuel st
    = (returned 0, trace st ++ mid ++ draws ++ timing_report clk) /\
    Forall internal_call mid /\
    Z.of_nat (length draws) = M /\ Forall (fun e => is_draw e = true) draws.
Proof.
  intros Hne Hagg Hcol HM Hfuel. unfold after_join.
  destruct (individual_samples st) as [|s0 ss] eqn:Hs; [congruence|].
  cbn [length Nat.eqb]. rewrite Hagg. cbn zeta. unfold psis_seeding.
  set (tl := tail_len_of (Z.of_nat (num_returned (individual_lp_ratios st)))) in *.
  destruct (draw_loop_returns M _ _ HM Hcol (Z.to_nat M) fuel 0
                              (create_rng random_seed path))
    as (draws & -> & Hlen & Hd); try lia.
  set (logs := if refresh =? 0 then []
               else [logger_info ("Total log probability function evaluations:"
                                  +:+ to_string (lp_calls st))]).
  exists (logs ++ [call_psis_weights lp_ratios tl; call_create_rng random_seed path]), draws.
  rewrite <- !app_assoc. repeat split; auto; [|lia].
  apply Forall_app; split.
  - subst logs. destruct (refresh =? 0); repeat constructor.
  - repeat constructor. subst tl. rewrite (aggregate_length _ _ _ _ Hagg). reflexivity.
Qed.

Lemma after_join_never_exits random_seed path refresh clk fuel st lp_ratios samples :
  individual_samples st <> [] ->
  aggregate (individual_lp_ratios st) (individual_samples st) = Some (lp_ratios, samples) ->
  draws_in_range
    (psis_weights lp_ratios (tail_len_of (Z.of_nat (num_returned (individual_lp_ratios st)))))
    samples ->
  exists mid draws,
    after_join random_seed path refresh 0 clk fuel st = (running, trace st ++ mid ++ draws) /\
    Forall internal_call mid /\
    length draws = fuel /\ Forall (fun e => is_draw e = true) draws.
Proof.
  intros Hne Hagg Hcol. unfold after_join.
  destruct (individual_samples st) as [|s0 ss] eqn:Hs; [congruence|].
  cbn [length Nat.eqb]. rewrite Hagg. cbn zeta. unfold psis_seeding.
  set (tl := tail_len_of (Z.of_nat (num_returned (individual_lp_ratios st)))) in *.
  destruct (draw_loop_never_exits _ _ Hcol fuel 0 (create_rng random_seed path))
    as (draws & -> & Hlen & Hd); [lia|].
  set (logs := if refresh =? 0 then []
               else [logger_info ("Total log probability function evaluations:"
                                  +:+ to_string (lp_calls st))]).
  exists (logs ++ [call_psis_weights lp_ratios tl; call_create_rng random_seed path]), draws.
  rewrite <- !app_assoc. repeat split; auto.
  apply Forall_app; split.
  - subst logs. destruct (refresh =? 0); repeat constructor.
  - repeat constructor. subst tl. rewrite (aggregate_length _ _ _ _ Hagg). reflexivity.
Qed.

(** The total is what the logger reports, unless [refresh] is 0. *)
Lemma total_is_logged random_seed path refresh M clk fuel st :
  individual_samples st <> [] -> refresh <> 0 ->
  In (logger_info ("Total log probability function evaluations:" +:+ to_string (lp_calls st)))
     (snd (after_join random_seed path refresh M clk fuel st)).
Proof.
  intros Hne Hr. unfold after_join.
  destruct (individual_samples st) as [|s0 ss] eqn:Hs; [congruence|].
  cbn [length Nat.eqb]. apply Z.eqb_neq in Hr. rewrite Hr.
  destruct (aggregate (individual_lp_ratios st) (s0 :: ss)) as [[lp_ratios samples]|].
  2:{ simpl. apply in_or_app. right. left. reflexivity. }
  cbn zeta. unfold psis_seeding.
  destruct (draw_loop M _ samples fuel 0 (create_rng random_seed path)) as [o1 draws].
  destruct o1; simpl; rewrite <- !app_assoc; apply in_or_app; right; left; reflexivity.
Qed.

(** ** Which paths run *)

Lemma before_failure_In random_seed path (n : nat) (iter i : Z) :
  In i (before_failure random_seed path n iter) <->
  iter <= i < iter + Z.of_nat n /\
  forall j, iter <= j <= i -> failed random_seed path j = false.
Proof.
  revert iter. induction n as [|n IH]; intros iter; cbn [before_failure].
  - simpl. split; [tauto | lia].
  - destruct (failed random_seed path iter) eqn:Hf.
    + simpl. split; [tauto|]. intros [H1 H2]. specialize (H2 iter). rewrite Hf in H2.
      assert (true = false) by (apply H2; lia). discriminate.
    + simpl. rewrite IH. split.
      * intros [<- | [H1 H2]].
        -- split; [lia|]. intros j Hj. assert (j = iter) as -> by lia. exact Hf.
        -- split; [lia|]. intros j Hj.
           destruct (Z.eq_dec j iter) as [-> | Hne]; [exact Hf | apply H2; lia].
      * intros [H1 H2]. destruct (Z.eq_dec iter i) as [-> | Hne]; [left; reflexivity|].
        right. split; [lia|]. intros j Hj. apply H2. lia.
Qed.

(** The runner is called only for indices of the sub-range with no
    failing index before them. *)
Lemma for_body_calls random_seed path (n : nat) (iter i seed stream : Z) :
  In (call_single i seed stream) (emitted (for_body random_seed path n iter)) ->
  iter <= i < iter + Z.of_nat n /\
  forall j, iter <= j < i -> failed random_seed path j = false.
Proof.
  revert iter. induction n as [|n IH]; intros iter; [intros []|].
  rewrite for_body_unfold.
  destruct (failed random_seed path iter) eqn:Hf; cbn.
  - intros [[= <- _ _] | [H | []]]; [|discriminate]. split; [lia|]. intros j Hj. lia.
  - intros [[= <- _ _] | H].
    + split; [lia|]. intros j Hj. lia.
    + apply IH in H. destruct H as [H1 H2]. split; [lia|]. intros j Hj.
      destruct (Z.eq_dec j iter) as [-> | Hne]; [exact Hf | apply H2; lia].
Qed.

Lemma covers_disjoint (b e : Z) (chunks : list blocked_range) (r r' : blocked_range) (i : Z) :
  covers b e chunks = true -> In r chunks -> In r' chunks ->
  r_begin r <= i < r_end r -> r_begin r' <= i < r_end r' -> r = r'.
Proof.
  revert b. induction chunks as [|c chunks IH]; intros b Hc Hr Hr' Hi Hi'; [destruct Hr|].
  simpl in Hc. rewrite !andb_true_iff in Hc. destruct Hc as [[[H1 H2] H3] H4].
  destruct Hr as [<- | Hr], Hr' as [<- | Hr'].
  - reflexivity.
  - pose proof (covers_bounds _ _ _ _ H4 Hr'). lia.
  - pose proof (covers_bounds _ _ _ _ H4 Hr). lia.
  - eapply IH; eauto.
Qed.

Lemma lookup_map {A B} (f : A -> B) (l : list A) (i : nat) (x : A) :
  l !! i = Some x -> map f l !! i = Some (f x).
Proof.
  revert i. induction l as [|a l IH]; intros [|i]; simpl; try discriminate.
  - intros [= ->]. reflexivity.
  - apply IH.
Qed.

Lemma length_concat_map {A B} (f : A -> list B) (l : list A) :
  length (concat (map f l)) = sum_list_with (fun p => length (f p)) l.
Proof.
  induction l as [|a l IH]; [reflexivity|].
  simpl. rewrite List.length_app, IH. reflexivity.
Qed.

Lemma sum_list_with_ext_In {A} (f g : A -> nat) (l : list A) :
  (forall x, In x l -> f x = g x) -> sum_list_with f l = sum_list_with g l.
Proof.
  induction l as [|a l IH]; intros H; [reflexivity|].
  simpl. rewrite (H a), IH; auto; [intros; apply H; right; auto | left; auto].
Qed.

Lemma Forall2_map_same {A B C} (P : B -> C -> Prop) (f : A -> B) (g : A -> C) (l : list A) :
  (forall x, In x l -> P (f x) (g x)) -> Forall2 P (map f l) (map g l).
Proof.
  induction l as [|a l IH]; intros H; simpl; constructor.
  - apply H. left. reflexivity.
  - apply IH. intros x Hx. apply H. right. exact Hx.
Qed.

(** ** The sinks *)

Lemma filter_none {A} (f : A -> bool) (l : list A) :
  Forall (fun x => f x = false) l -> List.filter f l = [].
Proof.
  induction 1 as [|x l Hx _ IH]; [reflexivity|]. simpl. rewrite Hx. exact IH.
Qed.

Lemma filter_all {A} (f : A -> bool) (l : list A) :
  Forall (fun x => f x = true) l -> List.filter f l = l.
Proof.
  induction 1 as [|x l Hx _ IH]; [reflexivity|]. simpl. rewrite Hx, IH. reflexivity.
Qed.

Lemma path_event_quiet (e : event) :
  is_path_event e = true ->
  to_parameter_writer e = false /\ to_diagnostic_writer e = false /\ is_draw e = false.
Proof. destruct e; simpl; intros; try discriminate; auto. Qed.

Lemma draw_sinks (e : event) :
  is_draw e = true -> to_parameter_writer e = true /\ to_diagnostic_writer e = false.
Proof. destruct e; simpl; intros; try discriminate; auto. Qed.

Lemma path_events_sinks (l : list event) :
  Forall (fun e => is_path_event e = true) l ->
  List.filter to_parameter_writer l = [] /\ List.filter to_diagnostic_writer l = [] /\
  List.filter is_draw l = [].
Proof.
  intros H. repeat split; apply filter_none; eapply Forall_impl; eauto;
    intros e He; apply path_event_quiet in He; tauto.
Qed.

Lemma internal_calls_sinks (l : list event) :
  Forall internal_call l ->
  List.filter to_parameter_writer l = [] /\ List.filter to_diagnostic_writer l = [].
Proof.
  intros H. split; apply filter_none; eapply Forall_impl; eauto;
    intros e He; unfold internal_call in He; tauto.
Qed.

Lemma draws_sinks (l : list event) :
  Forall (fun e => is_draw e = true) l ->
  List.filter to_parameter_writer l = l /\ List.filter to_diagnostic_writer l = [].
Proof.
  intros H. split; [apply filter_all | apply filter_none]; eapply Forall_impl; eauto;
    intros e He; apply draw_sinks in He; tauto.
Qed.

Lemma col_in_range (m : matrix) (j : Z) :
  0 <= j < Z.of_nat (cols m) -> is_Some (col m j).
Proof.
  intros Hj. unfold col.
  replace (0 <=? j) with true by (symmetry; apply Z.leb_le; lia).
  replace (j <? Z.of_nat (cols m)) with true by (symmetry; apply Z.ltb_lt; lia).
  simpl. apply lookup_lt_is_Some. unfold cols in Hj. lia.
Qed.

(** ** The claims *)

(** C10: with [num_paths = 0] the header row goes to both sinks, no path
    is run, the message that no pathfinder succeeded is logged, the call
    returns [error_codes::SOFTWARE] and nothing else is written: the empty
    set of paths goes through the branch of zero successes. *)
Theorem no_paths_fails_after_header random_seed path refresh num_multi_draws
    cuts order clk fuel :
  pathfinder_lbfgs_multi random_seed path refresh num_multi_draws 0 cuts order clk fuel
  = (returned SOFTWARE,
     [param_names_row (constrained_param_names ++ ["lp_approx__"%string; "lp__"%string]);
      diag_names_row (constrained_param_names ++ ["lp_approx__"%string; "lp__"%string]);
      logger_info "No pathfinders ran successfully"]).
Proof.
  unfold pathfinder_lbfgs_multi, parallel_for, run_bodies.
  rewrite split_range_empty by lia. simpl map.
  rewrite run_workers_nil. reflexivity.
Qed.

(** No path is collected when the first path of every sub-range fails. *)
Lemma no_success_no_samples random_seed path num_paths cuts order :
  (forall r, In r (split_range 0 num_paths cuts) ->
             ret_code (path_ret random_seed path (r_begin r)) = SOFTWARE) ->
  individual_samples (parallel_for random_seed path num_paths cuts order initial_state) = [].
Proof.
  intros Hfail. unfold parallel_for.
  pose proof (split_range_covers 0 num_paths cuts) as Hc.
  set (chunks := split_range 0 num_paths cuts) in *.
  apply Permutation_nil. symmetry.
  etransitivity; [apply run_bodies_samples|]. simpl.
  replace (concat (map (collected random_seed path) chunks)) with (@nil Z);
    [reflexivity|].
  symmetry. apply concat_nil_Forall, Forall_map, Forall_forall. intros r Hr.
  apply list_elem_of_In in Hr.
  destruct (covers_bounds _ _ _ _ Hc Hr) as [H1 H2].
  unfold collected.
  destruct (Z.to_nat (r_end r - r_begin r)) as [|n] eqn:En; [reflexivity|].
  cbn [before_failure]. unfold failed. rewrite (Hfail r Hr), Z.eqb_refl. reflexivity.
Qed.

(** C4: when no path succeeds, every path that is run failing, that is,
    the first path of every sub-range failing, as when all paths fail,
    the call returns the one failure code [error_codes::SOFTWARE]; the
    header rows come first and are all that either sink receives, and no
    draw row is written. *)
Theorem no_success_fails_after_header random_seed path refresh num_multi_draws num_paths
    cuts order clk fuel :
  (forall r, In r (split_range 0 num_paths cuts) ->
             ret_code (path_ret random_seed path (r_begin r)) = SOFTWARE) ->
  exists events,
    pathfinder_lbfgs_multi random_seed path refresh num_multi_draws num_paths
                           cuts order clk fuel
    = (returned SOFTWARE, header ++ events) /\
    List.filter to_parameter_writer (header ++ events)
    = [param_names_row (constrained_param_names ++ ["lp_approx__"%string; "lp__"%string])] /\
    List.filter to_diagnostic_writer (header ++ events)
    = [diag_names_row (constrained_param_names ++ ["lp_approx__"%string; "lp__"%string])] /\
    List.filter is_draw (header ++ events) = [].
Proof.
  intros Hfail. unfold pathfinder_lbfgs_multi.
  rewrite after_join_no_success by (apply no_success_no_samples; exact Hfail).
  unfold parallel_for. rewrite run_bodies_trace. simpl trace.
  pose proof (run_bodies_path_events random_seed path (split_range 0 num_paths cuts) order)
    as Hp.
  set (evs := emitted _) in *.
  exists (evs ++ [logger_info "No pathfinders ran successfully"]).
  destruct (path_events_sinks evs Hp) as (F1 & F2 & F3).
  rewrite <- app_assoc. split; [reflexivity|].
  rewrite !List.filter_app, F1, F2, F3. repeat split; reflexivity.
Qed.

(** When all paths fail, so does the first path of every sub-range. *)
Lemma all_failed_first_failed random_seed path num_paths cuts :
  (forall iter, 0 <= iter < num_paths ->
                ret_code (path_ret random_seed path iter) = SOFTWARE) ->
  forall r, In r (split_range 0 num_paths cuts) ->
            ret_code (path_ret random_seed path (r_begin r)) = SOFTWARE.
Proof.
  intros Hall r Hr.
  destruct (covers_bounds _ _ _ _ (split_range_covers 0 num_paths cuts) Hr) as [H1 H2].
  apply Hall. lia.
Qed.

(** C9: the first two calls of every run write the header row, the
    constrained parameter names followed by [lp_approx__] and [lp__], to
    the parameter writer and to the diagnostic writer, before any path is
    run; the diagnostic writer receives nothing else.  When the call
    returns 0 (which [error_codes::SOFTWARE] is not), that is, after
    resampling, the parameter writer has received the header row, the draw
    rows and then, in order, an empty row, the line of the pathfinders'
    time, the line of the PSIS time behind as many blanks as the label
    [Elapsed Time: ] is long, the line of the total, and an empty row. *)
Theorem header_first_timing_report_last random_seed path refresh num_multi_draws
    num_paths cuts order clk fuel o tr :
  SOFTWARE <> 0 ->
  pathfinder_lbfgs_multi random_seed path refresh num_multi_draws num_paths
                         cuts order clk fuel = (o, tr) ->
  let param_names := constrained_param_names ++ ["lp_approx__"%string; "lp__"%string] in
  let pathfinders_delta_time :=
    duration_seconds (start_pathfinders_time clk) (end_pathfinders_time clk) in
  let psis_delta_time := duration_seconds (start_psis_time clk) (end_psis_time clk) in
  (exists rest,
     tr = param_names_row param_names :: diag_names_row param_names :: rest) /\
  List.filter to_diagnostic_writer tr = [diag_names_row param_names] /\
  (o = returned 0 ->
   exists draws,
     Forall (fun e => is_draw e = true) draws /\
     List.filter to_parameter_writer tr
     = param_names_row param_names :: draws ++
       [param_blank;
        param_text ("Elapsed Time: " +:+ to_string_double pathfinders_delta_time
                    +:+ " seconds (Pathfinders)");
        param_text (string_fill (String.length "Elapsed Time: ") " "%char
                    +:+ to_string_double psis_delta_time +:+ " seconds (PSIS)");
        param_text (string_fill (String.length "Elapsed Time: ") " "%char
                    +:+ to_string_double
                          (PrimFloat.add pathfinders_delta_time psis_delta_time)
                    +:+ " seconds (Total)");
        param_blank]).
Proof.
  intros Hsw Hrun. cbn zeta. unfold pathfinder_lbfgs_multi, parallel_for in Hrun.
  apply after_join_trace in Hrun.
  destruct Hrun as (mid & draws & tail & -> & Hmid & Hdraws & Htail & Hret).
  rewrite run_bodies_trace. simpl trace.
  pose proof (run_bodies_path_events random_seed path (split_range 0 num_paths cuts) order)
    as Hp.
  set (evs := emitted _) in *.
  destruct (path_events_sinks evs Hp) as (F1 & F2 & _).
  destruct (internal_calls_sinks mid Hmid) as (G1 & G2).
  destruct (draws_sinks draws Hdraws) as (D1 & D2).
  destruct (timing_report_sinks clk) as (T1 & T2).
  split; [|split].
  - unfold header. simpl. eauto.
  - rewrite !List.filter_app, F2, G2, D2.
    destruct Htail as [-> | ->]; [|rewrite T2]; reflexivity.
  - intros Ho. rewrite (Hret Hsw Ho). exists draws. split; [exact Hdraws|].
    rewrite !List.filter_app, F1, G1, D1, T1. reflexivity.
Qed.

(** C5: the tail length passed to the weight routine is
    [min(0.2 * N, 3 * sqrt(N))], in [double] arithmetic, for [N] the
    length of the aggregated ratios passed with it; [N = 100] gives 20
    and [N = 2500] gives 150. *)
Theorem tail_length_formula random_seed path refresh num_multi_draws num_paths
    cuts order clk fuel o tr lp_ratios tail_len :
  pathfinder_lbfgs_multi random_seed path refresh num_multi_draws num_paths
                         cuts order clk fuel = (o, tr) ->
  In (call_psis_weights lp_ratios tail_len) tr ->
  let N := to_double (Z.of_nat (length lp_ratios)) in
  tail_len = std_min (PrimFloat.mul 0x1.999999999999ap-3%float N)
                     (PrimFloat.mul 3%float (PrimFloat.sqrt N)) /\
  tail_len_of 100 = 20%float /\ tail_len_of 2500 = 150%float.
Proof.
  intros Hrun Hin. cbn zeta. split; [|split; reflexivity].
  unfold pathfinder_lbfgs_multi, parallel_for in Hrun. apply after_join_trace in Hrun.
  destruct Hrun as (mid & draws & tail & -> & Hmid & Hdraws & Htail & _).
  rewrite run_bodies_trace in Hin. simpl trace in Hin.
  pose proof (run_bodies_path_events random_seed path (split_range 0 num_paths cuts) order)
    as Hp.
  rewrite !in_app_iff in Hin. destruct Hin as [[Hin | Hin] | [Hin | [Hin | Hin]]].
  - simpl in Hin. destruct Hin as [Hin | [Hin | []]]; discriminate.
  - apply list_elem_of_In in Hin. rewrite Forall_forall in Hp.
    apply Hp in Hin. discriminate.
  - apply list_elem_of_In in Hin. rewrite Forall_forall in Hmid.
    apply Hmid in Hin. destruct Hin as (_ & _ & ->). reflexivity.
  - apply list_elem_of_In in Hin. rewrite Forall_forall in Hdraws.
    apply Hdraws in Hin. discriminate.
  - destruct Htail as [-> | ->]; [destruct Hin|].
    simpl in Hin. repeat (destruct Hin as [Hin | Hin]; [discriminate|]). destruct Hin.
Qed.

(** The aggregation of results that the two vectors hold at the same
    indices: when the ratio sequences are as long as their sample matrices
    are wide, and the matrices have the row count of the first, the
    aggregated ratios and the aggregated columns both number the sum of
    the draw counts, and the block of every path holds that path's
    columns, and its ratios, in their own order. *)
Theorem aggregate_blocks (first : single_ret) (others : list single_ret) :
  (forall p, In p (first :: others) -> length (ret_lp_ratios p) = cols (ret_samples p)) ->
  (forall p, In p (first :: others) -> rows (ret_samples p) = rows (ret_samples first)) ->
  exists lp_ratios samples,
    aggregate (map ret_lp_ratios (first :: others)) (map ret_samples (first :: others))
    = Some (lp_ratios, samples) /\
    length lp_ratios = sum_list_with (fun p => cols (ret_samples p)) (first :: others) /\
    cols samples = sum_list_with (fun p => cols (ret_samples p)) (first :: others) /\
    forall i p,
      (first :: others) !! i = Some p ->
      let offset := sum_list_with (fun q => cols (ret_samples q)) (take i (first :: others)) in
      take (cols (ret_samples p)) (drop offset (mat_cols samples)) = mat_cols (ret_samples p) /\
      take (cols (ret_samples p)) (drop offset lp_ratios) = ret_lp_ratios p.
Proof.
  intros Hlen Hrows.
  set (results := first :: others) in *.
  assert (aggregate (map ret_lp_ratios results) (map ret_samples results)
          = Some (concat (map ret_lp_ratios results),
                  {| mat_rows := rows (ret_samples first);
                     mat_cols := concat (map mat_cols (map ret_samples results)) |}))
    as Hagg.
  { subst results. cbn [map]. apply aggregate_spec.
    apply (Forall2_map_same _ ret_lp_ratios ret_samples (first :: others)).
    intros p Hp. split; [apply Hlen | apply Hrows]; exact Hp. }
  eexists _, _. split; [exact Hagg|]. unfold cols at 2. cbn [mat_cols].
  rewrite map_map, !length_concat_map. split; [|split].
  - apply sum_list_with_ext_In. exact Hlen.
  - reflexivity.
  - intros i p Hp. cbn zeta.
    assert (In p results) as Hin.
    { apply list_elem_of_In. eapply list_elem_of_lookup_2. exact Hp. }
    split.
    + pose proof (concat_block (map (fun x => mat_cols (ret_samples x)) results) i
                               (mat_cols (ret_samples p))
                               (lookup_map _ _ _ _ Hp)) as Hb.
      rewrite firstn_map, length_concat_map in Hb. exact Hb.
    + pose proof (concat_block (map ret_lp_ratios results) i (ret_lp_ratios p)
                               (lookup_map _ _ _ _ Hp)) as Hb.
      rewrite firstn_map, length_concat_map in Hb.
      rewrite (Hlen p Hin) in Hb.
      rewrite (sum_list_with_ext_In (fun q => length (ret_lp_ratios q))
                                    (fun q => cols (ret_samples q))) in Hb; [exact Hb|].
      intros q Hq. apply Hlen. apply list_elem_of_In.
      eapply (subseteq_take i results). apply list_elem_of_In. exact Hq.
Qed.

(** C8, as the code has it: the total of the parallel phase is the sum,
    in [size_t], of the evaluation counts of the collected paths, the
    paths of every sub-range that come before its first failing path;
    the count a failing path reports is not added. *)
Theorem lp_calls_total random_seed path num_paths cuts order :
  lp_calls (parallel_for random_seed path num_paths cuts order initial_state)
  = to_size_t (Zsum (map (fun i => ret_lp_calls (path_ret random_seed path i))
                         (concat (map (collected random_seed path)
                                      (split_range 0 num_paths cuts))))) /\
  forall r i,
    In i (collected random_seed path r) <->
    r_begin r <= i < r_end r /\
    forall j, r_begin r <= j <= i -> ret_code (path_ret random_seed path j) <> SOFTWARE.
Proof.
  split.
  - unfold parallel_for. rewrite run_bodies_lp_calls by (simpl; lia). reflexivity.
  - intros r i. unfold collected. rewrite before_failure_In. unfold failed.
    split; intros [H1 H2]; (split; [lia|]); intros j Hj.
    + apply Z.eqb_neq. apply H2. exact Hj.
    + apply Z.eqb_neq. apply H2. exact Hj.
Qed.

(** C3, as the code has it: the resampling generator is created from
    [(random_seed, path)] and path [iter] is run with [(random_seed,
    path + iter)], the sum in [unsigned int]; the two pairs are the same
    for path 0 and differ for every other path index. *)
Theorem psis_stream_is_stream_of_first_path (random_seed path iter : Z) :
  0 <= path < 2 ^ 32 -> 0 <= iter < 2 ^ 31 ->
  psis_seeding random_seed path = (random_seed, path) /\
  single_path_seeding random_seed path iter = (random_seed, (path + iter) mod 2 ^ 32) /\
  (single_path_seeding random_seed path iter = psis_seeding random_seed path <-> iter = 0).
Proof.
  intros Hp Hi. unfold psis_seeding, single_path_seeding, to_unsigned.
  repeat split.
  - intros [= H]. destruct (Z_lt_ge_dec (path + iter) (2 ^ 32)) as [Hlt | Hge].
    + rewrite Z.mod_small in H by lia. lia.
    + replace (path + iter) with (path + iter - 2 ^ 32 + 1 * 2 ^ 32) in H by lia.
      rewrite Z.mod_add in H by lia. rewrite Z.mod_small in H by lia. lia.
  - intros ->. rewrite Z.add_0_r, Z.mod_small by lia. reflexivity.
Qed.

(** C1, what the code does: with [num_multi_draws = 0] and at least one
    collected path the draw loop never leaves; whatever the number of
    iterations allowed, the call is still running and has written that
    many draw rows after the header. *)
Theorem zero_draws_never_returns random_seed path refresh num_paths cuts order clk
    lp_ratios samples :
  let st := parallel_for random_seed path num_paths cuts order initial_state in
  individual_samples st <> [] ->
  aggregate (individual_lp_ratios st) (individual_samples st) = Some (lp_ratios, samples) ->
  draws_in_range
    (psis_weights lp_ratios (tail_len_of (Z.of_nat (num_returned (individual_lp_ratios st)))))
    samples ->
  forall fuel, exists events draws,
    pathfinder_lbfgs_multi random_seed path refresh 0 num_paths cuts order clk fuel
    = (running, header ++ events ++ draws) /\
    List.filter is_draw events = [] /\
    length draws = fuel /\ Forall (fun e => is_draw e = true) draws.
Proof.
  intros st Hne Hagg Hcol fuel. unfold pathfinder_lbfgs_multi. fold st.
  destruct (after_join_never_exits random_seed path refresh clk fuel st _ _ Hne Hagg Hcol)
    as (mid & draws & -> & Hmid & Hlen & Hd).
  subst st. unfold parallel_for. rewrite run_bodies_trace. simpl trace.
  pose proof (run_bodies_path_events random_seed path (split_range 0 num_paths cuts) order)
    as Hp.
  set (evs := emitted _) in *.
  exists (evs ++ mid), draws. rewrite <- !app_assoc. repeat split; auto.
  rewrite List.filter_app. destruct (path_events_sinks evs Hp) as (_ & _ & ->).
  apply filter_none. eapply Forall_impl; [exact Hmid|].
  intros e (He & _). destruct e; simpl in *; auto; discriminate.
Qed.

(** C2, what the code does: once a path of a sub-range fails, the body
    returns, and no later path of that sub-range is run, under any
    schedule. *)
Theorem failure_skips_rest_of_chunk random_seed path num_paths cuts order r j iter
    seed stream :
  In r (split_range 0 num_paths cuts) ->
  r_begin r <= j < iter -> iter < r_end r ->
  ret_code (path_ret random_seed path j) = SOFTWARE ->
  ~ In (call_single iter seed stream)
       (trace (parallel_for random_seed path num_paths cuts order initial_state)).
Proof.
  intros Hr Hj Hi Hfail Hin. unfold parallel_for in Hin.
  pose proof (split_range_covers 0 num_paths cuts) as Hc.
  set (chunks := split_range 0 num_paths cuts) in *.
  rewrite run_bodies_trace in Hin. apply in_app_or in Hin.
  destruct Hin as [Hin | Hin].
  { simpl in Hin. destruct Hin as [Hin | [Hin | []]]; discriminate. }
  apply list_elem_of_In in Hin. unfold emitted in Hin.
  rewrite run_workers_Permutation, omap_concat in Hin.
  apply list_elem_of_In, in_concat in Hin. destruct Hin as (l & Hl & Hin).
  rewrite map_map in Hl. apply in_map_iff in Hl. destruct Hl as (r' & <- & Hr').
  apply for_body_calls in Hin. destruct Hin as [H1 H2].
  assert (r_begin r' <= iter < r_end r') as Hin' by lia.
  assert (r = r') as <- by (eapply covers_disjoint; eauto; lia).
  specialize (H2 j ltac:(lia)). unfold failed in H2.
  rewrite Hfail, Z.eqb_refl in H2. discriminate.
Qed.

(** The draw loop with a positive bound, whatever the generator draws:
    it writes the column of each drawn index, and is left after the last
    one, or stops at the first index that names no column. *)
Lemma draw_loop_outcome M w sm :
  1 <= M < 2 ^ 63 ->
  forall (k fuel : nat) i g,
    0 <= i -> i + Z.of_nat k = M -> (k < fuel)%nat ->
    draw_loop M w sm fuel i g
    = (if forallb (has_col sm) (drawn_indices w k g) then returned 0 else assert_failed,
       rows_of sm (drawn_indices w k g)).
Proof.
  intros HM.
  assert (to_size_t (M - 1) = M - 1) as Hb by (apply Z.mod_small; lia).
  induction k as [|k IH]; intros fuel i g Hi Hk Hf;
    (destruct fuel as [|fuel]; [lia|]); cbn [draw_loop drawn_indices]; rewrite Hb.
  - replace (i <=? M - 1) with false by (symmetry; apply Z.leb_gt; lia). reflexivity.
  - replace (i <=? M - 1) with true by (symmetry; apply Z.leb_le; lia).
    destruct (rand_psis_idx w g) as [j g']. cbn [forallb rows_of]. unfold has_col at 1.
    destruct (col sm j) as [c|]; [|reflexivity].
    assert (to_size_t (i + 1) = i + 1) as -> by (apply Z.mod_small; lia).
    rewrite (IH fuel (i + 1) g') by lia. reflexivity.
Qed.

Lemma rows_of_length sm (indices : list Z) :
  forallb (has_col sm) indices = true -> length (rows_of sm indices) = length indices.
Proof.
  induction indices as [|j rest IH]; [reflexivity|].
  cbn [forallb rows_of]. unfold has_col at 1.
  destruct (col sm j); [|discriminate]. intros H. simpl. rewrite IH; auto.
Qed.

Lemma drawn_indices_length w (n : nat) g : length (drawn_indices w n g) = n.
Proof.
  revert g. induction n as [|n IH]; intros g; [reflexivity|].
  cbn [drawn_indices]. destruct (rand_psis_idx w g) as [j g']. simpl. rewrite IH. reflexivity.
Qed.

(** C7, as the code has it: a weight vector of zeros raises no error
    status.  With at least one collected path, arrays that aggregate and
    [1 <= num_multi_draws], the call hands the zeros to the generator
    created from [(random_seed, path)] and writes the column of each index
    it draws.  When all [num_multi_draws] indices name a column, these
    rows and the timing report are written and the call returns 0;
    otherwise the call stops at the assertion on the column index at the
    first index that names none, after the rows of the indices before
    it. *)
Theorem zero_weights_raise_no_error random_seed path refresh num_multi_draws num_paths
    cuts order clk fuel lp_ratios samples (n : nat) :
  let st := parallel_for random_seed path num_paths cuts order initial_state in
  let tail_len := tail_len_of (Z.of_nat (num_returned (individual_lp_ratios st))) in
  let zeros := replicate n 0%float in
  let indices :=
    drawn_indices zeros (Z.to_nat num_multi_draws) (create_rng random_seed path) in
  let all_name_a_column := forallb (has_col samples) indices in
  individual_samples st <> [] ->
  aggregate (individual_lp_ratios st) (individual_samples st) = Some (lp_ratios, samples) ->
  psis_weights lp_ratios tail_len = zeros ->
  1 <= num_multi_draws < 2 ^ 31 -> (Z.to_nat num_multi_draws < fuel)%nat ->
  exists events,
    pathfinder_lbfgs_multi random_seed path refresh num_multi_draws num_paths
                           cuts order clk fuel
    = (if all_name_a_column then returned 0 else assert_failed,
       header ++ events ++ rows_of samples indices
       ++ (if all_name_a_column then timing_report clk else [])) /\
    In (call_psis_weights lp_ratios tail_len) events /\
    In (call_create_rng random_seed path) events /\
    List.filter is_draw events = [] /\
    (all_name_a_column = true ->
     Z.of_nat (length (rows_of samples indices)) = num_multi_draws).
Proof.
  intros st tail_len zeros indices ok Hne Hagg Hzero HM Hfuel.
  unfold pathfinder_lbfgs_multi. fold st. unfold after_join.
  destruct (individual_samples st) as [|s0 ss] eqn:Hs; [exfalso; apply Hne; reflexivity|].
  cbn [length Nat.eqb]. rewrite Hagg. cbn zeta. unfold psis_seeding.
  fold tail_len. rewrite Hzero.
  rewrite (draw_loop_outcome num_multi_draws zeros samples ltac:(lia)
                             (Z.to_nat num_multi_draws) fuel 0
                             (create_rng random_seed path)) by lia.
  fold indices. fold ok.
  subst st. unfold parallel_for in *. rewrite run_bodies_trace. simpl trace.
  pose proof (run_bodies_path_events random_seed path (split_range 0 num_paths cuts) order)
    as Hp.
  set (evs := emitted _) in *.
  set (st := run_bodies random_seed path (split_range 0 num_paths cuts) order initial_state)
    in *.
  set (logs := if refresh =? 0 then []
               else [logger_info ("Total log probability function evaluations:"
                                  +:+ to_string (lp_calls st))]).
  exists (evs ++ logs
          ++ [call_psis_weights lp_ratios tail_len; call_create_rng random_seed path]).
  split; [|split; [|split; [|split]]].
  - destruct ok; rewrite <- !app_assoc; [reflexivity|].
    rewrite app_nil_r. reflexivity.
  - apply in_or_app. right. apply in_or_app. right. left. reflexivity.
  - apply in_or_app. right. apply in_or_app. right. right. left. reflexivity.
  - rewrite !List.filter_app. destruct (path_events_sinks evs Hp) as (_ & _ & ->).
    subst logs. destruct (refresh =? 0); reflexivity.
  - intros Hok. subst ok. rewrite (rows_of_length _ _ Hok).
    subst indices. rewrite drawn_indices_length. lia.
Qed.

(** ** Further properties of the parallel phase *)

Lemma run_bodies_emitted_In random_seed path chunks order (e : event) :
  In e (emitted (run_workers order (map (body random_seed path) chunks))) <->
  exists r, In r chunks /\ In e (emitted (body random_seed path r)).
Proof.
  rewrite <- list_elem_of_In. unfold emitted at 1.
  rewrite run_workers_Permutation, omap_concat, list_elem_of_In, in_concat.
  split.
  - intros (l & Hl & He). rewrite map_map in Hl. apply in_map_iff in Hl.
    destruct Hl as (r & <- & Hr). exists r. split; [exact Hr | exact He].
  - intros (r & Hr & He). exists (emitted (body random_seed path r)).
    split; [|exact He]. rewrite map_map. apply in_map_iff. exists r. split; auto.
Qed.

Lemma parallel_for_trace_In random_seed path num_paths cuts order (e : event) :
  In e (trace (parallel_for random_seed path num_paths cuts order initial_state)) <->
  In e header \/
  exists r, In r (split_range 0 num_paths cuts) /\ In e (emitted (body random_seed path r)).
Proof.
  unfold parallel_for. rewrite run_bodies_trace, in_app_iff, run_bodies_emitted_In.
  reflexivity.
Qed.

(** The runner is called for exactly the indices of the sub-range that no
    failing index precedes, with the seed and the stream of the index. *)
Lemma for_body_calls_iff random_seed path (n : nat) (iter i seed stream : Z) :
  In (call_single i seed stream) (emitted (for_body random_seed path n iter)) <->
  (seed, stream) = single_path_seeding random_seed path i /\
  iter <= i < iter + Z.of_nat n /\
  forall j, iter <= j < i -> failed random_seed path j = false.
Proof.
  revert iter. induction n as [|n IH]; intros iter.
  - simpl. split; [intros [] | lia].
  - rewrite for_body_unfold.
    destruct (failed random_seed path iter) eqn:Hf; cbn.
    + split.
      * intros [[= <- <- <-] | [H | []]]; [|discriminate].
        split; [reflexivity|]. split; [lia|]. intros j Hj. lia.
      * intros (Hs & Hi & Hj). destruct (Z.eq_dec i iter) as [-> | Hne].
        -- left. unfold single_path_seeding in Hs. injection Hs as -> ->. reflexivity.
        -- specialize (Hj iter ltac:(lia)). congruence.
    + rewrite IH. split.
      * intros [[= <- <- <-] | (Hs & Hi & Hj)].
        -- split; [reflexivity|]. split; [lia|]. intros j Hj. lia.
        -- split; [exact Hs|]. split; [lia|]. intros j Hj'.
           destruct (Z.eq_dec j iter) as [-> | Hne]; [exact Hf | apply Hj; lia].
      * intros (Hs & Hi & Hj). destruct (Z.eq_dec i iter) as [-> | Hne].
        -- left. unfold single_path_seeding in Hs. injection Hs as -> ->. reflexivity.
        -- right. split; [exact Hs|]. split; [lia|]. intros j Hj'. apply Hj. lia.
Qed.

Lemma for_body_failed_logged random_seed path (n : nat) (iter i seed stream : Z) :
  In (call_single i seed stream) (emitted (for_body random_seed path n iter)) ->
  failed random_seed path i = true ->
  In (logger_info ("Pathfinder iteration: " +:+ to_string i +:+ " failed."))
     (emitted (for_body random_seed path n iter)).
Proof.
  revert iter. induction n as [|n IH]; intros iter; [intros []|].
  rewrite for_body_unfold.
  destruct (failed random_seed path iter) eqn:Hf; cbn.
  - intros [[= <- _ _] | [H | []]] Hi; [|discriminate]. right. left. reflexivity.
  - intros [[= <- _ _] | H] Hi; [congruence|]. right. apply IH; assumption.
Qed.

(** The indices a body runs are distinct and lie in its sub-range. *)
Lemma for_body_run_indices random_seed path (n : nat) (iter : Z) :
  NoDup (run_indices (emitted (for_body random_seed path n iter))) /\
  forall i, i ∈ run_indices (emitted (for_body random_seed path n iter)) ->
            iter <= i < iter + Z.of_nat n.
Proof.
  revert iter. induction n as [|n IH]; intros iter.
  - split; [constructor|]. intros i Hi. inversion Hi.
  - rewrite for_body_unfold.
    destruct (failed random_seed path iter) eqn:Hf; cbn.
    + split.
      * apply NoDup_singleton.
      * intros i Hi. apply list_elem_of_singleton in Hi. lia.
    + destruct (IH (iter + 1)) as [Hnd Hr].
      change (omap _ (emitted (for_body random_seed path n (iter + 1))))
        with (run_indices (emitted (for_body random_seed path n (iter + 1)))).
      split.
      * apply NoDup_cons. split; [|exact Hnd]. intros Hin. apply Hr in Hin. lia.
      * intros i Hi. apply elem_of_cons in Hi. destruct Hi as [-> | Hi]; [lia|].
        apply Hr in Hi. lia.
Qed.

Lemma chunks_run_indices random_seed path (b e : Z) (chunks : list blocked_range) :
  covers b e chunks = true ->
  NoDup (concat (map (fun r => run_indices (emitted (body random_seed path r))) chunks)) /\
  forall i, i ∈ concat (map (fun r => run_indices (emitted (body random_seed path r))) chunks) ->
            b <= i < e.
Proof.
  revert b. induction chunks as [|c chunks IH]; intros b Hc.
  - split; [constructor|]. intros i Hi. inversion Hi.
  - simpl in Hc. rewrite !andb_true_iff in Hc. destruct Hc as [[[H1 H2] H3] H4].
    apply Z.eqb_eq in H1. apply Z.ltb_lt in H2. apply Z.leb_le in H3.
    destruct (IH _ H4) as [Hnd Hr]. cbn [map concat].
    destruct (for_body_run_indices random_seed path
                (Z.to_nat (r_end c - r_begin c)) (r_begin c)) as [Hnd0 Hr0].
    fold (body random_seed path c) in Hnd0, Hr0.
    split.
    + apply NoDup_app. split; [exact Hnd0|]. split; [|exact Hnd].
      intros i Hi Hi'. apply Hr0 in Hi. apply Hr in Hi'. lia.
    + intros i Hi. apply elem_of_app in Hi. destruct Hi as [Hi | Hi].
      * apply Hr0 in Hi. lia.
      * apply Hr in Hi. lia.
Qed.

(** X1: a path that is run and reports failure is logged by its index,
    under every split and schedule. *)
Theorem failed_path_is_logged random_seed path num_paths cuts order iter seed stream :
  In (call_single iter seed stream)
     (trace (parallel_for random_seed path num_paths cuts order initial_state)) ->
  ret_code (path_ret random_seed path iter) = SOFTWARE ->
  In (logger_info ("Pathfinder iteration: " +:+ to_string iter +:+ " failed."))
     (trace (parallel_for random_seed path num_paths cuts order initial_state)).
Proof.
  intros Hin Hfail. rewrite parallel_for_trace_In in *.
  destruct Hin as [Hin | (r & Hr & Hin)].
  { simpl in Hin. destruct Hin as [Hin | [Hin | []]]; discriminate. }
  right. exists r. split; [exact Hr|].
  apply (for_body_failed_logged _ _ _ _ _ _ _ Hin).
  unfold failed. rewrite Hfail. apply Z.eqb_refl.
Qed.

(** X2: the runner is called for path [iter] exactly when [iter] lies in
    a sub-range in which no path before it fails; the call carries
    [random_seed] and the stream [path + iter], and [iter] is an index of
    [0 .. num_paths - 1]. *)
Theorem path_is_run_iff random_seed path num_paths cuts order iter seed stream :
  (In (call_single iter seed stream)
      (trace (parallel_for random_seed path num_paths cuts order initial_state)) <->
   (seed, stream) = (random_seed, to_unsigned (path + iter)) /\
   exists r, In r (split_range 0 num_paths cuts) /\
             r_begin r <= iter < r_end r /\
             forall j, r_begin r <= j < iter ->
                       ret_code (path_ret random_seed path j) <> SOFTWARE) /\
  (In (call_single iter seed stream)
      (trace (parallel_for random_seed path num_paths cuts order initial_state)) ->
   0 <= iter < num_paths).
Proof.
  assert (forall r,
            In (call_single iter seed stream) (emitted (body random_seed path r)) <->
            (seed, stream) = (random_seed, to_unsigned (path + iter)) /\
            r_begin r <= iter < r_end r /\
            forall j, r_begin r <= j < iter ->
                      ret_code (path_ret random_seed path j) <> SOFTWARE) as Hbody.
  { intros r. unfold body. rewrite for_body_calls_iff. unfold single_path_seeding, failed.
    split; intros (Hs & Hi & Hj); (split; [exact Hs|]); (split; [lia|]); intros j Hj'.
    - apply Z.eqb_neq. apply Hj. lia.
    - apply Z.eqb_neq. apply Hj. lia. }
  assert (In (call_single iter seed stream)
             (trace (parallel_for random_seed path num_paths cuts order initial_state)) <->
          exists r, In r (split_range 0 num_paths cuts) /\
                    In (call_single iter seed stream) (emitted (body random_seed path r)))
    as Htr.
  { rewrite parallel_for_trace_In. split; [|intros H; right; exact H].
    intros [Hin | H]; [|exact H].
    simpl in Hin. destruct Hin as [Hin | [Hin | []]]; discriminate. }
  split.
  - rewrite Htr. split.
    + intros (r & Hr & Hin). apply Hbody in Hin. destruct Hin as (Hs & Hi & Hj).
      split; [exact Hs|]. exists r. split; [exact Hr|]. split; [exact Hi | exact Hj].
    + intros (Hs & r & Hr & Hi & Hj). exists r. split; [exact Hr|].
      apply Hbody. split; [exact Hs|]. split; [exact Hi | exact Hj].
  - rewrite Htr. intros (r & Hr & Hin). apply Hbody in Hin. destruct Hin as (_ & Hi & _).
    destruct (covers_bounds _ _ _ _ (split_range_covers 0 num_paths cuts) Hr) as [H1 H2].
    lia.
Qed.

(** X3: no path is run twice: the indices of the runner calls of the
    parallel phase are distinct, under every split and schedule. *)
Theorem no_path_run_twice random_seed path num_paths cuts order :
  NoDup (run_indices (trace (parallel_for random_seed path num_paths cuts order
                                          initial_state))).
Proof.
  unfold parallel_for. rewrite run_bodies_trace. unfold run_indices at 1.
  rewrite omap_app. simpl omap at 1. simpl app.
  unfold emitted at 1. rewrite run_workers_Permutation, !omap_concat, !map_map.
  exact (proj1 (chunks_run_indices random_seed path 0 num_paths _
                  (split_range_covers 0 num_paths cuts))).
Qed.

(** ** What the join leaves *)

Lemma samples_empty_iff random_seed path num_paths cuts order :
  individual_samples (parallel_for random_seed path num_paths cuts order initial_state) = []
  <-> concat (map (collected random_seed path) (split_range 0 num_paths cuts)) = [].
Proof.
  pose proof (run_bodies_samples random_seed path (split_range 0 num_paths cuts) order
                                 initial_state) as Hp.
  simpl in Hp. unfold parallel_for. split; intros H.
  - rewrite H in Hp. apply Permutation_nil in Hp.
    destruct (concat _); [reflexivity | discriminate].
  - rewrite H in Hp. simpl in Hp. apply Permutation_nil. symmetry. exact Hp.
Qed.

Lemma covers_concat_seqZ (b e : Z) (chunks : list blocked_range) :
  covers b e chunks = true ->
  concat (map (fun r => seqZ (r_begin r) (r_end r - r_begin r)) chunks) = seqZ b (e - b).
Proof.
  revert b. induction chunks as [|c chunks IH]; intros b Hc; simpl in Hc.
  - apply Z.leb_le in Hc. simpl. symmetry. apply seqZ_nil. lia.
  - rewrite !andb_true_iff in Hc. destruct Hc as [[[H1 H2] H3] H4].
    apply Z.eqb_eq in H1. apply Z.ltb_lt in H2. apply Z.leb_le in H3.
    cbn [map concat]. rewrite (IH _ H4), H1.
    replace (e - b) with ((r_end c - b) + (e - r_end c)) by lia.
    rewrite seqZ_app by lia. do 2 f_equal. lia.
Qed.

Lemma collected_none_failed random_seed path num_paths cuts :
  (forall iter, 0 <= iter < num_paths ->
                ret_code (path_ret random_seed path iter) <> SOFTWARE) ->
  concat (map (collected random_seed path) (split_range 0 num_paths cuts))
  = seqZ 0 num_paths.
Proof.
  intros Hok.
  pose proof (split_range_covers 0 num_paths cuts) as Hc.
  rewrite <- (Z.sub_0_r num_paths) at 2.
  rewrite <- (covers_concat_seqZ _ _ _ Hc). f_equal.
  apply map_ext_in. intros r Hr.
  destruct (covers_bounds _ _ _ _ Hc Hr) as [H1 H2].
  unfold collected. rewrite before_failure_none_failed.
  - f_equal. lia.
  - intros i Hi. unfold failed. apply Z.eqb_neq. apply Hok. lia.
Qed.

Lemma collected_lengths random_seed path num_paths cuts order :
  let st := parallel_for random_seed path num_paths cuts order initial_state in
  length (individual_lp_ratios st)
  = length (concat (map (collected random_seed path) (split_range 0 num_paths cuts))) /\
  length (individual_samples st)
  = length (concat (map (collected random_seed path) (split_range 0 num_paths cuts))).
Proof.
  intros st.
  pose proof (run_bodies_lp_ratios random_seed path (split_range 0 num_paths cuts) order
                                   initial_state) as H1.
  pose proof (run_bodies_samples random_seed path (split_range 0 num_paths cuts) order
                                 initial_state) as H2.
  simpl in H1, H2. subst st. unfold parallel_for. split.
  - rewrite (Permutation_length H1). apply length_map.
  - rewrite (Permutation_length H2). apply length_map.
Qed.

(** X4: after the join, under every split and schedule, the two vectors
    hold the ratios and the samples of exactly the collected paths, each
    once, in some order; the two have the same length, the number of
    successful pathfinders of line 146. *)
Theorem collected_results_reach_both_vectors random_seed path num_paths cuts order :
  let st := parallel_for random_seed path num_paths cuts order initial_state in
  let collected_paths :=
    concat (map (collected random_seed path) (split_range 0 num_paths cuts)) in
  Permutation (individual_lp_ratios st)
              (map (fun i => ret_lp_ratios (path_ret random_seed path i)) collected_paths) /\
  Permutation (individual_samples st)
              (map (fun i => ret_samples (path_ret random_seed path i)) collected_paths) /\
  length (individual_lp_ratios st) = length collected_paths /\
  length (individual_samples st) = length collected_paths.
Proof.
  intros st ok.
  pose proof (run_bodies_lp_ratios random_seed path (split_range 0 num_paths cuts) order
                                   initial_state) as H1.
  pose proof (run_bodies_samples random_seed path (split_range 0 num_paths cuts) order
                                 initial_state) as H2.
  simpl in H1, H2. fold (parallel_for random_seed path num_paths cuts order initial_state)
    in H1, H2. fold st ok in H1, H2.
  split; [exact H1|]. split; [exact H2|]. split.
  - rewrite (Permutation_length H1). apply length_map.
  - rewrite (Permutation_length H2). apply length_map.
Qed.

(** X5: when no path fails, every path is collected whatever the split,
    there are [num_paths] successful pathfinders, and the total of the
    evaluation counts is the sum over all paths, in [size_t], whatever
    the schedule. *)
Theorem no_failure_collects_all random_seed path num_paths cuts order :
  (forall iter, 0 <= iter < num_paths ->
                ret_code (path_ret random_seed path iter) <> SOFTWARE) ->
  let st := parallel_for random_seed path num_paths cuts order initial_state in
  concat (map (collected random_seed path) (split_range 0 num_paths cuts))
  = seqZ 0 num_paths /\
  length (individual_samples st) = Z.to_nat num_paths /\
  lp_calls st
  = to_size_t (Zsum (map (fun i => ret_lp_calls (path_ret random_seed path i))
                         (seqZ 0 num_paths))).
Proof.
  intros Hok st. pose proof (collected_none_failed _ _ _ cuts Hok) as Hall.
  split; [exact Hall|]. split.
  - destruct (collected_lengths random_seed path num_paths cuts order)
      as [_ H]. fold st in H. rewrite H, Hall. apply length_seqZ.
  - subst st. unfold parallel_for. rewrite run_bodies_lp_calls by (simpl; lia).
    rewrite Hall. reflexivity.
Qed.

(** ** Further properties of the sequential phase *)

(** With a collected path the call does not take the failure branch. *)
Lemma after_join_outcome random_seed path refresh M clk fuel st :
  individual_samples st <> [] ->
  fst (after_join random_seed path refresh M clk fuel st) = returned 0 \/
  fst (after_join random_seed path refresh M clk fuel st) = assert_failed \/
  fst (after_join random_seed path refresh M clk fuel st) = running.
Proof.
  intros Hne. unfold after_join.
  destruct (individual_samples st) as [|s0 ss] eqn:Hs; [congruence|].
  cbn [length Nat.eqb].
  destruct (aggregate (individual_lp_ratios st) (s0 :: ss)) as [[lp_ratios samples]|];
    [|right; left; reflexivity].
  cbn zeta. unfold psis_seeding.
  destruct (draw_loop M _ samples fuel 0 (create_rng random_seed path)) as [o1 draws] eqn:E.
  destruct (draw_loop_shape _ _ _ _ _ _ _ _ E) as [_ [-> | [-> | ->]]]; simpl; auto.
Qed.

(** The calls made after the join: none is a header row or a call of the
    runner, and with [refresh = 0] and a collected path none is a call of
    the logger. *)
Lemma after_join_rest random_seed path refresh M clk fuel st :
  exists rest,
    snd (after_join random_seed path refresh M clk fuel st) = trace st ++ rest /\
    Forall (fun e => after_join_event e = true) rest /\
    (refresh = 0 -> individual_samples st <> [] -> Forall (fun e => is_log e = false) rest).
Proof.
  unfold after_join.
  destruct (individual_samples st) as [|s0 ss] eqn:Hs.
  { simpl. eexists. split; [reflexivity|]. split; [repeat constructor|]. congruence. }
  cbn [length Nat.eqb].
  set (logs := if refresh =? 0 then []
               else [logger_info ("Total log probability function evaluations:"
                                  +:+ to_string (lp_calls st))]).
  assert (Forall (fun e => after_join_event e = true) logs) as Hl1.
  { subst logs. destruct (refresh =? 0); repeat constructor. }
  assert (refresh = 0 -> Forall (fun e => is_log e = false) logs) as Hl2.
  { intros ->. subst logs. simpl. constructor. }
  destruct (aggregate (individual_lp_ratios st) (s0 :: ss)) as [[lp_ratios samples]|].
  2:{ simpl. exists logs. split; [reflexivity|]. split; [exact Hl1|]. intros H _. auto. }
  cbn zeta. unfold psis_seeding.
  destruct (draw_loop M _ samples fuel 0 (create_rng random_seed path)) as [o1 draws] eqn:E.
  destruct (draw_loop_shape _ _ _ _ _ _ _ _ E) as [Hd _].
  assert (Forall (fun e => after_join_event e = true) draws) as Hd1.
  { eapply Forall_impl; [exact Hd|]. intros e He. destruct e; simpl in *; congruence. }
  assert (Forall (fun e => is_log e = false) draws) as Hd2.
  { eapply Forall_impl; [exact Hd|]. intros e He. destruct e; simpl in *; congruence. }
  destruct o1; simpl; rewrite <- !app_assoc; eexists; (split; [reflexivity|]); split.
  all: try (intros Hr _; specialize (Hl2 Hr)).
  all: repeat (apply Forall_app; split); auto; repeat constructor.
Qed.

(** X6: the call returns [error_codes::SOFTWARE] exactly when no path is
    collected. *)
Theorem fails_iff_nothing_collected random_seed path refresh num_multi_draws num_paths
    cuts order clk fuel :
  SOFTWARE <> 0 ->
  (fst (pathfinder_lbfgs_multi random_seed path refresh num_multi_draws num_paths
                               cuts order clk fuel) = returned SOFTWARE
   <-> concat (map (collected random_seed path) (split_range 0 num_paths cuts)) = []).
Proof.
  intros Hsw. rewrite <- (samples_empty_iff random_seed path num_paths cuts order).
  unfold pathfinder_lbfgs_multi.
  set (st := parallel_for random_seed path num_paths cuts order initial_state).
  split.
  - intros Hret. destruct (individual_samples st) as [|s0 ss] eqn:Hs; [reflexivity|].
    exfalso.
    destruct (after_join_outcome random_seed path refresh num_multi_draws clk fuel st)
      as [H | [H | H]]; [rewrite Hs; discriminate | | |];
      rewrite H in Hret; congruence.
  - intros Hs. rewrite after_join_no_success by exact Hs. reflexivity.
Qed.

(** X7: with a collected path, the function logs the total of the
    evaluation counts when [refresh] is not 0; when [refresh] is 0 its own
    code makes no [logger.info] call after the parallel phase, so that the
    only messages it logs itself are those of failed paths.  (What the
    runner and [psis_weights] write to the logger they are handed is not
    part of the trace.) *)
Theorem total_logged_unless_refresh_zero random_seed path refresh num_multi_draws num_paths
    cuts order clk fuel :
  let st := parallel_for random_seed path num_paths cuts order initial_state in
  let tr := snd (pathfinder_lbfgs_multi random_seed path refresh num_multi_draws num_paths
                                        cuts order clk fuel) in
  concat (map (collected random_seed path) (split_range 0 num_paths cuts)) <> [] ->
  (refresh <> 0 ->
   In (logger_info ("Total log probability function evaluations:"
                    +:+ to_string (lp_calls st))) tr) /\
  (refresh = 0 -> List.filter is_log tr = List.filter is_log (trace st)).
Proof.
  intros st tr Hne.
  assert (individual_samples st <> []) as Hs.
  { intros H. apply Hne. apply (samples_empty_iff random_seed path num_paths cuts order).
    exact H. }
  split.
  - intros Hr. apply total_is_logged; assumption.
  - intros Hr. subst tr. unfold pathfinder_lbfgs_multi. fold st.
    destruct (after_join_rest random_seed path refresh num_multi_draws clk fuel st)
      as (rest & -> & _ & Hlog).
    rewrite List.filter_app, (filter_none is_log rest (Hlog Hr Hs)). apply app_nil_r.
Qed.

(** ** Further properties of the aggregation *)

Lemma set_middleCols_shape m start n src m' :
  set_middleCols m start n src = Some m' ->
  cols src = n /\ rows src = rows m /\ rows m' = rows m.
Proof.
  unfold set_middleCols.
  destruct ((start + n <=? cols m)%nat && (cols src =? n)%nat && (rows src =? rows m)%nat)
    eqn:E; [|discriminate].
  rewrite !andb_true_iff in E. destruct E as [[_ E2] E3].
  apply Nat.eqb_eq in E2, E3. intros [= <-]. auto.
Qed.

(** A loop that ends has met, at every index, ratios as long as the
    matrix is wide and a matrix with the rows of the target. *)
Lemma fill_loop_shapes lp sm n i start v m v' m' :
  fill_loop lp sm n i start v m = Some (v', m') ->
  forall k, (k < n)%nat ->
            exists r s, lp !! (i + k)%nat = Some r /\ sm !! (i + k)%nat = Some s /\
                        length r = cols s /\ rows s = rows m.
Proof.
  revert i start v m. induction n as [|n IH]; intros i start v m H k Hk; [lia|].
  cbn [fill_loop] in H.
  destruct (lp !! i) as [ilpr|] eqn:E1; [|discriminate].
  destruct (sm !! i) as [ismp|] eqn:E2; [|discriminate].
  destruct (set_segment v start (length ilpr) ilpr) as [v1|]; [|discriminate].
  destruct (set_middleCols m start (length ilpr) ismp) as [m1|] eqn:E4; [|discriminate].
  destruct (set_middleCols_shape _ _ _ _ _ E4) as (Hc & Hr & Hr1).
  destruct k as [|k].
  - exists ilpr, ismp. rewrite Nat.add_0_r. auto.
  - destruct (IH _ _ _ _ H k ltac:(lia)) as (r & s0 & L1 & L2 & L3 & L4).
    exists r, s0. replace (i + S k)%nat with (S i + k)%nat by lia.
    rewrite <- Hr1. auto.
Qed.

Lemma Forall2_of_Forall {A B} (P : A -> Prop) (Q : B -> Prop) (R : A -> B -> Prop)
    (l : list A) (k : list B) :
  length l = length k -> Forall P l -> Forall Q k ->
  (forall x y, P x -> Q y -> R x y) -> Forall2 R l k.
Proof.
  intros Hlen HP HQ HR. revert k Hlen HQ.
  induction HP as [|x l Hx _ IH]; intros [|y k] Hlen HQ; try discriminate; constructor.
  - apply HR; [exact Hx|]. inversion HQ; assumption.
  - apply IH; [simpl in Hlen; lia | inversion HQ; assumption].
Qed.

Lemma sum_list_with_const {A} (l : list A) (n : nat) :
  sum_list_with (fun _ => n) l = (length l * n)%nat.
Proof. induction l as [|a l IH]; simpl; [reflexivity|]. rewrite IH. reflexivity. Qed.

Lemma num_returned_uniform (lp : list (list double)) (n : nat) :
  Forall (fun r => length r = n) lp -> num_returned lp = (length lp * n)%nat.
Proof.
  induction 1 as [|r lp Hr _ IH]; [reflexivity|].
  unfold num_returned in *. simpl. rewrite IH, Hr. reflexivity.
Qed.

(** X8: on vectors of equal length the aggregation goes through exactly
    when every entry of the ratios is as long as the matrix at the same
    index is wide and every matrix has the row count of the first; it
    then gives the concatenation of the ratios and of the columns, with
    that row count.  Any other shapes stop at an assertion of Eigen. *)
Theorem aggregate_succeeds_iff (lp : list (list double)) (first : matrix)
    (sm : list matrix) :
  length lp = length (first :: sm) ->
  (is_Some (aggregate lp (first :: sm)) <->
   Forall2 (fun r s => length r = cols s /\ rows s = rows first) lp (first :: sm)) /\
  (forall lp_ratios samples,
     aggregate lp (first :: sm) = Some (lp_ratios, samples) ->
     lp_ratios = concat lp /\
     mat_cols samples = concat (map mat_cols (first :: sm)) /\
     rows samples = rows first).
Proof.
  intros Hlen.
  assert (is_Some (aggregate lp (first :: sm)) ->
          Forall2 (fun r s => length r = cols s /\ rows s = rows first) lp (first :: sm))
    as Hshape.
  { intros [[v' m'] H]. unfold aggregate in H.
    apply Forall2_same_length_lookup_2; [exact Hlen|].
    intros i r s Hr Hs.
    destruct (fill_loop_shapes _ _ _ _ _ _ _ _ _ H i) as (r' & s' & L1 & L2 & L3 & L4).
    { eapply lookup_lt_Some. exact Hs. }
    simpl in L1, L2. rewrite Hr in L1. rewrite Hs in L2.
    injection L1 as <-. injection L2 as <-. split; [exact L3 | exact L4]. }
  split.
  - split; [exact Hshape|]. intros HF. rewrite (aggregate_spec _ _ _ HF). eauto.
  - intros lp_ratios samples H.
    assert (is_Some (aggregate lp (first :: sm))) as Hs by (rewrite H; eauto).
    rewrite (aggregate_spec _ _ _ (Hshape Hs)) in H. injection H as <- <-.
    repeat split.
Qed.

(** X9: when all collected paths return the same number of draws and
    the same number of rows, the aggregation goes through under every
    split and schedule, with one column and one ratio per draw. *)
Theorem uniform_shapes_aggregate random_seed path num_paths cuts order (n d : nat) :
  let st := parallel_for random_seed path num_paths cuts order initial_state in
  let collected_paths :=
    concat (map (collected random_seed path) (split_range 0 num_paths cuts)) in
  collected_paths <> [] ->
  (forall i, In i collected_paths ->
             length (ret_lp_ratios (path_ret random_seed path i)) = n /\
             cols (ret_samples (path_ret random_seed path i)) = n /\
             rows (ret_samples (path_ret random_seed path i)) = d) ->
  exists lp_ratios samples,
    aggregate (individual_lp_ratios st) (individual_samples st) = Some (lp_ratios, samples) /\
    length lp_ratios = (length collected_paths * n)%nat /\
    cols samples = (length collected_paths * n)%nat /\
    rows samples = d.
Proof.
  intros st ok Hne Hshape.
  pose proof (run_bodies_lp_ratios random_seed path (split_range 0 num_paths cuts) order
                                   initial_state) as H1.
  pose proof (run_bodies_samples random_seed path (split_range 0 num_paths cuts) order
                                 initial_state) as H2.
  simpl in H1, H2. fold (parallel_for random_seed path num_paths cuts order initial_state)
    in H1, H2. fold st ok in H1, H2.
  destruct (collected_lengths random_seed path num_paths cuts order) as [L1 L2].
  fold st ok in L1, L2.
  assert (Forall (fun r => length r = n) (individual_lp_ratios st)) as F1.
  { rewrite H1. apply Forall_map, Forall_forall. intros i Hi.
    apply list_elem_of_In in Hi. apply Hshape in Hi. destruct Hi as (Ha & _ & _). exact Ha. }
  assert (Forall (fun s => cols s = n /\ rows s = d) (individual_samples st)) as F2.
  { rewrite H2. apply Forall_map, Forall_forall. intros i Hi.
    apply list_elem_of_In in Hi. apply Hshape in Hi. destruct Hi as (_ & Hb & Hc).
    split; [exact Hb | exact Hc]. }
  destruct (individual_samples st) as [|first sm] eqn:Hs.
  { destruct ok; [exfalso; apply Hne; reflexivity | discriminate]. }
  assert (rows first = d) as Hd by (inversion F2 as [|? ? [_ Hd'] _]; exact Hd').
  assert (Forall2 (fun r s => length r = cols s /\ rows s = rows first)
                  (individual_lp_ratios st) (first :: sm)) as HF.
  { eapply Forall2_of_Forall; [rewrite L1; symmetry; exact L2 | exact F1 | exact F2 |].
    intros r s Hr [Hc Hrw]. split; [rewrite Hr, Hc | rewrite Hrw, Hd]; reflexivity. }
  rewrite (aggregate_spec _ _ _ HF). eexists _, _. split; [reflexivity|].
  unfold cols, rows. cbn [mat_cols mat_rows].
  rewrite length_concat_sum, (num_returned_uniform _ n F1), L1.
  split; [reflexivity|]. split; [|exact Hd].
  rewrite length_concat_map.
  rewrite (sum_list_with_ext_In _ (fun _ => n)).
  - rewrite <- L2. apply sum_list_with_const.
  - intros s Hin. apply list_elem_of_In in Hin. rewrite Forall_forall in F2.
    apply F2 in Hin. unfold cols in Hin. destruct Hin as [Hin _]. exact Hin.
Qed.

(** X10: when the pool runs the bodies one after the other in the order
    of the range, the two vectors hold the collected paths in the order
    of their indices, and the aggregation gives the ratios and the columns
    of the collected paths, path after path in that order, provided each
    path's ratios are as many as its columns and all have [d] rows. *)
Theorem sequential_run_aggregates_in_path_order random_seed path num_paths cuts (d : nat) :
  let st := parallel_for random_seed path num_paths cuts [] initial_state in
  let collected_paths :=
    concat (map (collected random_seed path) (split_range 0 num_paths cuts)) in
  collected_paths <> [] ->
  (forall i, In i collected_paths ->
             length (ret_lp_ratios (path_ret random_seed path i))
             = cols (ret_samples (path_ret random_seed path i)) /\
             rows (ret_samples (path_ret random_seed path i)) = d) ->
  individual_lp_ratios st
  = map (fun i => ret_lp_ratios (path_ret random_seed path i)) collected_paths /\
  individual_samples st
  = map (fun i => ret_samples (path_ret random_seed path i)) collected_paths /\
  aggregate (individual_lp_ratios st) (individual_samples st)
  = Some (concat (map (fun i => ret_lp_ratios (path_ret random_seed path i)) collected_paths),
          {| mat_rows := d;
             mat_cols := concat (map (fun i => mat_cols (ret_samples (path_ret random_seed path i)))
                                     collected_paths) |}).
Proof.
  intros st ok Hne Hshape.
  assert (individual_lp_ratios st
          = map (fun i => ret_lp_ratios (path_ret random_seed path i)) ok) as E1.
  { subst st ok. unfold parallel_for, run_bodies. rewrite fold_step_lp_ratios.
    cbn [run_workers individual_lp_ratios initial_state app].
    unfold pushed_lp_ratios. rewrite omap_concat, map_map, concat_map, map_map.
    f_equal. apply map_ext. intros r. apply for_body_pushed_lp_ratios. }
  assert (individual_samples st
          = map (fun i => ret_samples (path_ret random_seed path i)) ok) as E2.
  { subst st ok. unfold parallel_for, run_bodies. rewrite fold_step_samples.
    cbn [run_workers individual_samples initial_state app].
    unfold pushed_samples. rewrite omap_concat, map_map, concat_map, map_map.
    f_equal. apply map_ext. intros r. apply for_body_pushed_samples. }
  split; [exact E1|]. split; [exact E2|]. rewrite E1, E2.
  destruct ok as [|i0 ok']; [congruence|]. cbn [map].
  assert (rows (ret_samples (path_ret random_seed path i0)) = d) as Hd
      by (apply Hshape; left; reflexivity).
  rewrite aggregate_spec.
  - rewrite Hd. cbn [map]. rewrite map_map. reflexivity.
  - apply (Forall2_map_same _ (fun i => ret_lp_ratios (path_ret random_seed path i))
                            (fun i => ret_samples (path_ret random_seed path i)) (i0 :: ok')).
    intros i Hi. destruct (Hshape i Hi) as [Hl Hr]. split; [exact Hl | congruence].
Qed.

(** ** Further properties of the draw loop *)

(** The rows of a loop that is left are the columns named by the indices
    the generator draws, one after the other. *)
Lemma draw_loop_rows M w sm :
  1 <= M < 2 ^ 63 -> draws_in_range w sm ->
  forall (k fuel : nat) i g,
    0 <= i -> i + Z.of_nat k = M -> (k < fuel)%nat ->
    exists columns,
      draw_loop M w sm fuel i g = (returned 0, map param_draw columns) /\
      Forall2 (fun c j => col sm j = Some c) columns (drawn_indices w k g).
Proof.
  intros HM Hcol.
  assert (to_size_t (M - 1) = M - 1) as Hb by (apply Z.mod_small; lia).
  induction k as [|k IH]; intros fuel i g Hi Hk Hf;
    (destruct fuel as [|fuel]; [lia|]); cbn [draw_loop drawn_indices]; rewrite Hb.
  - replace (i <=? M - 1) with false by (symmetry; apply Z.leb_gt; lia).
    exists []. split; [reflexivity | constructor].
  - replace (i <=? M - 1) with true by (symmetry; apply Z.leb_le; lia).
    specialize (Hcol g). destruct (rand_psis_idx w g) as [j g']. simpl in Hcol.
    destruct Hcol as [c Hc]. rewrite Hc.
    assert (to_size_t (i + 1) = i + 1) as -> by (apply Z.mod_small; lia).
    destruct (IH fuel (i + 1) g') as (columns & -> & HF); try lia.
    exists (c :: columns). split; [reflexivity|]. constructor; assumption.
Qed.

(** A bound that is not positive becomes a large [size_t]: the loop is
    not left before [2^64 + num_multi_draws] iterations. *)
Lemma draw_loop_nonpositive M w sm :
  - 2 ^ 31 < M <= 0 -> draws_in_range w sm ->
  forall (fuel : nat) i g,
    0 <= i -> i + Z.of_nat fuel <= 2 ^ 64 + M ->
    exists draws,
      draw_loop M w sm fuel i g = (running, draws) /\
      length draws = fuel /\ Forall (fun e => is_draw e = true) draws.
Proof.
  intros HM Hcol.
  assert (to_size_t (M - 1) = 2 ^ 64 + M - 1) as Hb.
  { unfold to_size_t. replace (M - 1) with (2 ^ 64 + M - 1 + (-1) * 2 ^ 64) by lia.
    rewrite Z.mod_add by lia. apply Z.mod_small. lia. }
  induction fuel as [|fuel IH]; intros i g Hi Hf; cbn [draw_loop].
  - exists []. repeat split. constructor.
  - rewrite Hb.
    replace (i <=? 2 ^ 64 + M - 1) with true by (symmetry; apply Z.leb_le; lia).
    specialize (Hcol g). destruct (rand_psis_idx w g) as [j g']. simpl in Hcol.
    destruct Hcol as [c ->].
    destruct fuel as [|fuel].
    + cbn [draw_loop]. exists [param_draw c]. repeat split. repeat constructor.
    + assert (to_size_t (i + 1) = i + 1) as -> by (apply Z.mod_small; lia).
      destruct (IH (i + 1) g') as (draws & -> & Hlen & Hd); try lia.
      exists (param_draw c :: draws). simpl. repeat split; [lia|].
      constructor; [reflexivity | exact Hd].
Qed.

(** X11: with a collected path, arrays that fit, indices in range and
    [1 <= num_multi_draws], the call returns 0 and the draw rows it has
    written are, in order, the columns of the aggregated samples named by
    the first [num_multi_draws] indices drawn from the generator created
    from [(random_seed, path)] over the weights. *)
Theorem draws_follow_generator random_seed path refresh num_multi_draws num_paths
    cuts order clk fuel lp_ratios samples :
  let st := parallel_for random_seed path num_paths cuts order initial_state in
  let weight_vals :=
    psis_weights lp_ratios
                 (tail_len_of (Z.of_nat (num_returned (individual_lp_ratios st)))) in
  let run := pathfinder_lbfgs_multi random_seed path refresh num_multi_draws num_paths
                                    cuts order clk fuel in
  individual_samples st <> [] ->
  aggregate (individual_lp_ratios st) (individual_samples st) = Some (lp_ratios, samples) ->
  draws_in_range weight_vals samples ->
  1 <= num_multi_draws < 2 ^ 31 -> (Z.to_nat num_multi_draws < fuel)%nat ->
  fst run = returned 0 /\
  exists columns,
    List.filter is_draw (snd run) = map param_draw columns /\
    Forall2 (fun c j => col samples j = Some c) columns
            (drawn_indices weight_vals (Z.to_nat num_multi_draws)
                           (create_rng random_seed path)).
Proof.
  intros st weight_vals run Hne Hagg Hcol HM Hfuel.
  subst run. unfold pathfinder_lbfgs_multi. fold st. unfold after_join.
  destruct (individual_samples st) as [|s0 ss] eqn:Hs; [congruence|].
  cbn [length Nat.eqb]. rewrite Hagg. cbn zeta. unfold psis_seeding.
  fold weight_vals.
  destruct (draw_loop_rows num_multi_draws weight_vals samples ltac:(lia) Hcol
                           (Z.to_nat num_multi_draws) fuel 0
                           (create_rng random_seed path))
    as (columns & -> & HF); try lia.
  split; [reflexivity|]. exists columns. split; [|exact HF].
  cbn [snd]. subst st. unfold parallel_for. rewrite run_bodies_trace. simpl trace.
  pose proof (run_bodies_path_events random_seed path (split_range 0 num_paths cuts) order)
    as Hp.
  set (evs := emitted _) in *.
  destruct (path_events_sinks evs Hp) as (_ & _ & F3).
  rewrite !List.filter_app, F3.
  replace (List.filter is_draw (map param_draw columns)) with (map param_draw columns).
  - destruct (refresh =? 0); simpl; rewrite app_nil_r; reflexivity.
  - symmetry. apply filter_all. apply Forall_map, Forall_forall. reflexivity.
Qed.

(** X12: a [num_multi_draws] that is zero or negative does not skip the
    loop: its bound, converted to [size_t], is [2^64 + num_multi_draws - 1],
    and as long as no more than [2^64 + num_multi_draws] iterations have
    been run the loop is not left and has written a row in each. *)
Theorem nonpositive_draws_keep_drawing (num_multi_draws : Z) (weight_vals : list double)
    (samples : matrix) (fuel : nat) (g : rng) :
  - 2 ^ 31 < num_multi_draws <= 0 -> draws_in_range weight_vals samples ->
  Z.of_nat fuel <= 2 ^ 64 + num_multi_draws ->
  to_size_t (num_multi_draws - 1) = 2 ^ 64 + num_multi_draws - 1 /\
  exists draws,
    draw_loop num_multi_draws weight_vals samples fuel 0 g = (running, draws) /\
    length draws = fuel /\ Forall (fun e => is_draw e = true) draws.
Proof.
  intros HM Hcol Hf. split.
  - unfold to_size_t.
    replace (num_multi_draws - 1)
      with (2 ^ 64 + num_multi_draws - 1 + (-1) * 2 ^ 64) by lia.
    rewrite Z.mod_add by lia. apply Z.mod_small. lia.
  - apply draw_loop_nonpositive; auto; lia.
Qed.

(** ** The two pushes of a path *)

(** C6, what the code does: the ratios and the samples of a path reach
    the two vectors by two separate pushes (lines 132-135), and the
    aggregation pairs the vectors by index (lines 163-167).  With two
    successful paths run by two workers, the second pushing both its
    results between the two pushes of the first, the vectors hold the
    paths in different orders; when the draw counts of the two paths
    differ, the block assignment of line 166 meets a matrix of another
    width and the aggregation stops at Eigen's assertion, although the
    ratios of each path are as many as its columns. *)
Theorem interleaved_pushes_break_aggregation random_seed path refresh num_multi_draws
    clk fuel :
  let p0 := path_ret random_seed path 0 in
  let p1 := path_ret random_seed path 1 in
  let order := [0; 0; 1; 1; 1]%nat in
  let st := parallel_for random_seed path 2 [1] order initial_state in
  ret_code p0 <> SOFTWARE -> ret_code p1 <> SOFTWARE ->
  length (ret_lp_ratios p0) = cols (ret_samples p0) ->
  cols (ret_samples p0) <> cols (ret_samples p1) ->
  individual_lp_ratios st = [ret_lp_ratios p0; ret_lp_ratios p1] /\
  individual_samples st = [ret_samples p1; ret_samples p0] /\
  aggregate (individual_lp_ratios st) (individual_samples st) = None /\
  fst (pathfinder_lbfgs_multi random_seed path refresh num_multi_draws 2 [1] order clk fuel)
  = assert_failed.
Proof.
  intros p0 p1 order st H0 H1 Hlen Hne.
  assert (failed random_seed path 0 = false) as F0 by (apply Z.eqb_neq; exact H0).
  assert (failed random_seed path 1 = false) as F1 by (apply Z.eqb_neq; exact H1).
  assert (individual_lp_ratios st = [ret_lp_ratios p0; ret_lp_ratios p1] /\
          individual_samples st = [ret_samples p1; ret_samples p0]) as [E1 E2].
  { assert (body random_seed path {| r_begin := 0; r_end := 1 |}
            = [emit (call_single 0 random_seed (to_unsigned (path + 0)));
               push_lp_ratios (ret_lp_ratios p0); push_samples (ret_samples p0);
               add_lp_calls (ret_lp_calls p0)]) as B0.
    { unfold body. cbn [r_begin r_end]. change (Z.to_nat (1 - 0)) with 1%nat.
      rewrite for_body_unfold, F0. reflexivity. }
    assert (body random_seed path {| r_begin := 1; r_end := 2 |}
            = [emit (call_single 1 random_seed (to_unsigned (path + 1)));
               push_lp_ratios (ret_lp_ratios p1); push_samples (ret_samples p1);
               add_lp_calls (ret_lp_calls p1)]) as B1.
    { unfold body. cbn [r_begin r_end]. change (Z.to_nat (2 - 1)) with 1%nat.
      rewrite for_body_unfold, F1. reflexivity. }
    subst st. unfold parallel_for, run_bodies.
    rewrite fold_step_lp_ratios, fold_step_samples.
    change (split_range 0 2 [1])
      with [ {| r_begin := 0; r_end := 1 |}; {| r_begin := 1; r_end := 2 |} ].
    cbn [map]. rewrite B0, B1. split; reflexivity. }
  assert (aggregate (individual_lp_ratios st) (individual_samples st) = None) as Hagg.
  { rewrite E1, E2.
    destruct (aggregate [ret_lp_ratios p0; ret_lp_ratios p1] [ret_samples p1; ret_samples p0])
      as [[v m]|] eqn:E; [|reflexivity].
    exfalso. unfold aggregate in E.
    destruct (fill_loop_shapes _ _ _ _ _ _ _ _ _ E 0%nat ltac:(simpl; lia))
      as (r & s & L1 & L2 & L3 & _).
    simpl in L1, L2. injection L1 as <-. injection L2 as <-.
    apply Hne. rewrite <- Hlen. exact L3. }
  split; [exact E1|]. split; [exact E2|]. split; [exact Hagg|].
  unfold pathfinder_lbfgs_multi. fold st. unfold after_join.
  rewrite Hagg, E2. reflexivity.
Qed.

End Multi.

(** ** The clock *)

(** X13: [duration_seconds] counts whole milliseconds: what is left of a
    millisecond is dropped, and a time under one millisecond is 0. *)
Theorem duration_counts_whole_milliseconds (t_start ms rest : Z) :
  0 <= ms -> 0 <= rest < 1000000 ->
  duration_seconds t_start (t_start + ms * 1000000 + rest)
  = PrimFloat.div (to_double ms) 1000%float /\
  duration_seconds t_start (t_start + rest) = 0%float.
Proof.
  intros Hms Hrest. unfold duration_seconds. split.
  - replace (t_start + ms * 1000000 + rest - t_start) with (rest + ms * 1000000) by lia.
    rewrite Z.quot_div_nonneg by lia. rewrite Z.div_add by lia.
    rewrite Z.div_small by lia. reflexivity.
  - replace (t_start + rest - t_start) with rest by lia.
    rewrite Z.quot_small by lia. reflexivity.
Qed.

(** ** The claims on a model with two parameters *)

(** The function with the collaborators of [Demo]: the runner fails on the
    paths of [failing], and [psis] computes the weights. *)
Abbreviation demo_multi failing psis :=
  (pathfinder_lbfgs_multi Demo.names Demo.SOFTWARE (Demo.single failing) psis
                          Z Demo.create_rng Demo.rand_psis_idx Demo.to_string_double
                          (to_double 0)).

Abbreviation demo_parallel_for failing :=
  (parallel_for Demo.SOFTWARE (Demo.single failing)).

Abbreviation demo_state := (initial_state Demo.names).

Abbreviation demo_header :=
  [param_names_row ["mu"%string; "sigma"%string; "lp_approx__"%string; "lp__"%string];
   diag_names_row ["mu"%string; "sigma"%string; "lp_approx__"%string; "lp__"%string]].

Lemma demo_draws_in_range (w : list double) (m : matrix) :
  (0 < length w)%nat -> length w = cols m -> draws_in_range Z Demo.rand_psis_idx w m.
Proof.
  intros Hw Hlen g. apply col_in_range. unfold Demo.rand_psis_idx. cbn [fst].
  rewrite <- Hlen. apply Z.mod_pos_bound. lia.
Qed.

(** Both paths fail: the first path of each of the two sub-ranges does. *)
Lemma no_success_fails_after_header_witness :
  split_range 0 2 (Demo.one_each 2)
  = [ {| r_begin := 0; r_end := 1 |}; {| r_begin := 1; r_end := 2 |} ] /\
  exists events,
    demo_multi [0; 1] Demo.psis_same 1 7 1 3 2 (Demo.one_each 2) [1%nat; 0%nat] Demo.clk 5%nat
    = (returned 70, demo_header ++ events) /\
    List.filter to_parameter_writer (demo_header ++ events)
    = [param_names_row ["mu"%string; "sigma"%string; "lp_approx__"%string; "lp__"%string]] /\
    List.filter to_diagnostic_writer (demo_header ++ events)
    = [diag_names_row ["mu"%string; "sigma"%string; "lp_approx__"%string; "lp__"%string]] /\
    List.filter is_draw (demo_header ++ events) = [].
Proof.
  split; [reflexivity|].
  apply (no_success_fails_after_header Demo.names Demo.SOFTWARE (Demo.single [0; 1])
           Demo.psis_same Z Demo.create_rng Demo.rand_psis_idx Demo.to_string_double
           (to_double 0) 1 7 1 3 2 (Demo.one_each 2) [1%nat; 0%nat] Demo.clk 5%nat).
  intros r [<- | [<- | []]]; reflexivity.
Defined.

Lemma header_first_timing_report_last_witness :
  let run :=
    demo_multi [] Demo.psis_same 1 7 1 3 2 (Demo.one_each 2) [1%nat; 0%nat] Demo.clk 10%nat in
  fst run = returned 0 /\
  List.filter to_diagnostic_writer (snd run)
  = [diag_names_row ["mu"%string; "sigma"%string; "lp_approx__"%string; "lp__"%string]] /\
  exists draws,
    Forall (fun e => is_draw e = true) draws /\
    List.filter to_parameter_writer (snd run)
    = param_names_row ["mu"%string; "sigma"%string; "lp_approx__"%string; "lp__"%string]
      :: draws ++
      [param_blank;
       param_text "Elapsed Time: 0.000000 seconds (Pathfinders)";
       param_text "              0.000000 seconds (PSIS)";
       param_text "              0.000000 seconds (Total)";
       param_blank].
Proof.
  intros run.
  destruct (header_first_timing_report_last Demo.names Demo.SOFTWARE (Demo.single [])
              Demo.psis_same Z Demo.create_rng Demo.rand_psis_idx Demo.to_string_double
              (to_double 0) 1 7 1 3 2 (Demo.one_each 2) [1%nat; 0%nat] Demo.clk 10%nat
              (fst run) (snd run))
    as (_ & Hdiag & Hparam).
  - discriminate.
  - apply surjective_pairing.
  - split; [reflexivity|]. split; [exact Hdiag|]. apply Hparam. reflexivity.
Defined.

Lemma tail_length_formula_witness :
  let run :=
    demo_multi [] Demo.psis_same 1 7 1 3 2 (Demo.one_each 2) [1%nat; 0%nat] Demo.clk 10%nat in
  In (call_psis_weights [1%float; 1%float; 1%float] 0x1.3333333333334p-1%float) (snd run) /\
  0x1.3333333333334p-1%float
  = std_min (PrimFloat.mul 0x1.999999999999ap-3%float 3%float)
            (PrimFloat.mul 3%float (PrimFloat.sqrt 3%float)).
Proof.
  intros run.
  assert (In (call_psis_weights [1%float; 1%float; 1%float] 0x1.3333333333334p-1%float)
             (snd run)) as Hin.
  { vm_compute. do 5 right. left. reflexivity. }
  split; [exact Hin|].
  exact (proj1 (tail_length_formula Demo.names Demo.SOFTWARE (Demo.single [])
                  Demo.psis_same Z Demo.create_rng Demo.rand_psis_idx Demo.to_string_double
                  (to_double 0) 1 7 1 3 2 (Demo.one_each 2) [1%nat; 0%nat] Demo.clk 10%nat
                  (fst run) (snd run) [1%float; 1%float; 1%float] 0x1.3333333333334p-1%float
                  (surjective_pairing run) Hin)).
Defined.

Lemma aggregate_blocks_witness :
  let p0 := Demo.single [] 1 7 0 in
  let p1 := Demo.single [] 1 8 1 in
  let p2 := Demo.single [] 1 9 2 in
  exists lp_ratios samples,
    aggregate (to_double 0) (map ret_lp_ratios [p0; p1; p2]) (map ret_samples [p0; p1; p2])
    = Some (lp_ratios, samples) /\
    length lp_ratios = 6%nat /\ cols samples = 6%nat /\
    take 2 (drop 1 (mat_cols samples)) = [Demo.draw 1 0; Demo.draw 1 1] /\
    take 2 (drop 1 lp_ratios) = [1%float; 1%float].
Proof.
  intros p0 p1 p2.
  destruct (aggregate_blocks (to_double 0) p0 [p1; p2])
    as (lp_ratios & samples & H1 & H2 & H3 & H4).
  - intros p [<- | [<- | [<- | []]]]; reflexivity.
  - intros p [<- | [<- | [<- | []]]]; reflexivity.
  - exists lp_ratios, samples. split; [exact H1|]. split; [exact H2|]. split; [exact H3|].
    exact (H4 1%nat p1 eq_refl).
Defined.

(** One path, one draw, [num_multi_draws = 0]: after 1000 iterations the
    loop is still running and 1000 rows are written. *)
Lemma zero_draws_never_returns_witness :
  exists events draws,
    demo_multi [] Demo.psis_same 1 7 1 0 1 Demo.whole [] Demo.clk 1000%nat
    = (running, demo_header ++ events ++ draws) /\
    List.filter is_draw events = [] /\
    length draws = 1000%nat /\ Forall (fun e => is_draw e = true) draws.
Proof.
  apply (zero_draws_never_returns Demo.names Demo.SOFTWARE (Demo.single [])
           Demo.psis_same Z Demo.create_rng Demo.rand_psis_idx Demo.to_string_double
           (to_double 0) 1 7 1 1 Demo.whole [] Demo.clk
           [1%float] {| mat_rows := 4; mat_cols := [Demo.draw 0 0] |}).
  - discriminate.
  - reflexivity.
  - apply demo_draws_in_range; [repeat constructor | reflexivity].
Defined.

(** Two paths handed to the body as one sub-range; path 0 fails and
    path 1, which would succeed, is not run under any schedule. *)
Lemma failure_skips_rest_of_chunk_witness :
  split_range 0 2 Demo.whole = [ {| r_begin := 0; r_end := 2 |} ] /\
  ret_code (path_ret (Demo.single [0]) 1 7 0) = Demo.SOFTWARE /\
  ret_code (path_ret (Demo.single [0]) 1 7 1) = 0 /\
  forall order,
    ~ In (call_single 1 1 8) (trace (demo_parallel_for [0] 1 7 2 Demo.whole order demo_state)).
Proof.
  split; [reflexivity|]. split; [reflexivity|]. split; [reflexivity|].
  intros order.
  apply (failure_skips_rest_of_chunk Demo.names Demo.SOFTWARE (Demo.single [0])
           1 7 2 Demo.whole order {| r_begin := 0; r_end := 2 |} 0 1 1 8).
  - left. reflexivity.
  - simpl. lia.
  - simpl. lia.
  - reflexivity.
Defined.

(** The run at which the body is handed both paths as one sub-range and
    path 0 fails: path 1, which would succeed, is never run, and the call
    fails for want of a successful path. *)
Lemma failure_skips_rest_of_chunk_run (order : list nat) (fuel : nat) :
  demo_multi [0] Demo.psis_same 1 7 1 3 2 Demo.whole order Demo.clk fuel
  = (returned 70,
     demo_header ++
     [call_single 0 1 7; logger_info "Pathfinder iteration: 0 failed.";
      logger_info "No pathfinders ran successfully"]).
Proof.
  unfold pathfinder_lbfgs_multi, parallel_for, run_bodies, Demo.whole.
  cbn [split_range Z.ltb Z.compare map].
  rewrite run_workers_single. reflexivity.
Qed.

(** With the sub-range cut after path 0 the same paths give a successful
    run: path 1 is run and contributes its two draws. *)
Lemma failure_spares_other_chunks_run :
  fst (demo_multi [0] Demo.psis_same 1 7 1 3 2 (Demo.one_each 2) [] Demo.clk 10%nat)
  = returned 0 /\
  In (call_single 1 1 8)
     (snd (demo_multi [0] Demo.psis_same 1 7 1 3 2 (Demo.one_each 2) [] Demo.clk 10%nat)).
Proof. split; [reflexivity|]. vm_compute. do 4 right. left. reflexivity. Qed.

Lemma zero_weights_raise_no_error_witness :
  Demo.psis_zero [1%float; 1%float; 1%float] 0x1.3333333333334p-1%float
  = replicate 3 0%float /\
  drawn_indices Z Demo.rand_psis_idx (replicate 3 0%float) 2 (Demo.create_rng 1 7) = [2; 0] /\
  exists events,
    demo_multi [] Demo.psis_zero 1 7 1 2 2 (Demo.one_each 2) [] Demo.clk 10%nat
    = (returned 0,
       demo_header ++ events
       ++ [param_draw (Demo.draw 1 1); param_draw (Demo.draw 0 0)]
       ++ timing_report Demo.to_string_double Demo.clk) /\
    In (call_psis_weights [1%float; 1%float; 1%float] 0x1.3333333333334p-1%float) events /\
    In (call_create_rng 1 7) events /\
    List.filter is_draw events = [].
Proof.
  split; [reflexivity|]. split; [reflexivity|].
  destruct (zero_weights_raise_no_error Demo.names Demo.SOFTWARE (Demo.single [])
              Demo.psis_zero Z Demo.create_rng Demo.rand_psis_idx Demo.to_string_double
              (to_double 0) 1 7 1 2 2 (Demo.one_each 2) [] Demo.clk 10%nat
              [1%float; 1%float; 1%float]
              {| mat_rows := 4; mat_cols := [Demo.draw 0 0; Demo.draw 1 0; Demo.draw 1 1] |}
              3%nat)
    as (events & Hrun & Hpsis & Hrng & Hquiet & _).
  - discriminate.
  - reflexivity.
  - reflexivity.
  - lia.
  - simpl. lia.
  - exists events. split; [exact Hrun|]. split; [exact Hpsis|]. split; [exact Hrng|].
    exact Hquiet.
Defined.

(** The same run with a generator that draws the index past the last
    column on the zero weights: the call stops at the assertion on the
    column index before any draw row, and returns no status. *)
Lemma zero_weights_out_of_range_run :
  pathfinder_lbfgs_multi Demo.names Demo.SOFTWARE (Demo.single []) Demo.psis_zero
                         Z Demo.create_rng Demo.rand_past_end Demo.to_string_double
                         (to_double 0) 1 7 0 2 2 (Demo.one_each 2) [] Demo.clk 10%nat
  = (assert_failed,
     demo_header ++
     [call_single 0 1 7; call_single 1 1 8;
      call_psis_weights [1%float; 1%float; 1%float] 0x1.3333333333334p-1%float;
      call_create_rng 1 7]).
Proof. reflexivity. Qed.

(** C7 fails on the code: the weight routine returns zeros only, and the
    call returns 0, the status of success, after writing the two draws
    asked for. *)
Lemma zero_weights_counterexample :
  let run :=
    demo_multi [] Demo.psis_zero 1 7 1 2 2 (Demo.one_each 2) [] Demo.clk 10%nat in
  Demo.psis_zero [1%float; 1%float; 1%float] 0x1.3333333333334p-1%float
  = [0%float; 0%float; 0%float] /\
  In (call_psis_weights [1%float; 1%float; 1%float] 0x1.3333333333334p-1%float) (snd run) /\
  fst run = returned 0 /\
  List.filter is_draw (snd run) = [param_draw (Demo.draw 1 1); param_draw (Demo.draw 0 0)].
Proof.
  intros run. split; [reflexivity|]. split; [|split; reflexivity].
  vm_compute. do 5 right. left. reflexivity.
Qed.

(** C8 fails on the code: path 0 succeeds after 10 evaluations, path 1
    fails after 2; the total is 10, not 12. *)
Lemma lp_calls_total_counterexample :
  let total :=
    lp_calls (demo_parallel_for [1] 1 7 2 (Demo.one_each 2) [1%nat; 0%nat] demo_state) in
  let all_paths :=
    Zsum (map (fun i => ret_lp_calls (path_ret (Demo.single [1]) 1 7 i)) (seqZ 0 2)) in
  ret_lp_calls (path_ret (Demo.single [1]) 1 7 1) = 2 /\
  total = 10 /\ all_paths = 12 /\ total <> all_paths.
Proof.
  intros total all_paths. split; [reflexivity|]. split; [reflexivity|].
  split; [reflexivity|]. discriminate.
Qed.

Lemma psis_stream_is_stream_of_first_path_witness :
  0 <= 7 < 2 ^ 32 /\ 0 <= 1 < 2 ^ 31 /\
  single_path_seeding 1 7 1 = (1, 8) /\
  (single_path_seeding 1 7 1 = psis_seeding 1 7 <-> 1 = 0).
Proof.
  split; [lia|]. split; [lia|].
  destruct (psis_stream_is_stream_of_first_path 1 7 1) as (_ & H1 & H2); [lia | lia |].
  split; [exact H1 | exact H2].
Defined.

(** C3 fails on the code: with one path, the stream of path 0 is the
    stream of the resampling generator. *)
Lemma psis_stream_counterexample :
  0 <= 0 < 1 /\ single_path_seeding 1 7 0 = psis_seeding 1 7.
Proof. split; [lia | reflexivity]. Qed.

(** The two pushes of a path are separate operations: when the pool runs
    them interleaved with those of another path, the two vectors hold the
    paths in different orders; with unequal draw counts the block
    assignment of line 166 then meets a matrix of the wrong width. *)
Lemma interleaved_pushes_misalign :
  let order := [0; 0; 1; 1; 1]%nat in
  let st := demo_parallel_for [] 1 7 2 (Demo.one_each 2) order demo_state in
  map length (individual_lp_ratios st) = [1; 2]%nat /\
  map cols (individual_samples st) = [2; 1]%nat /\
  fst (demo_multi [] Demo.psis_same 1 7 1 3 2 (Demo.one_each 2) order Demo.clk 10%nat)
  = assert_failed.
Proof. repeat split; reflexivity. Qed.

(** ** The further properties on the model with two parameters *)

Lemma failed_path_is_logged_witness :
  ret_code (path_ret (Demo.single [1]) 1 7 1) = Demo.SOFTWARE /\
  In (logger_info "Pathfinder iteration: 1 failed.")
     (trace (demo_parallel_for [1] 1 7 2 (Demo.one_each 2) [1%nat; 0%nat] demo_state)).
Proof.
  split; [reflexivity|].
  apply (failed_path_is_logged Demo.names Demo.SOFTWARE (Demo.single [1])
           1 7 2 (Demo.one_each 2) [1%nat; 0%nat] 1 1 8).
  - vm_compute. do 2 right. left. reflexivity.
  - reflexivity.
Defined.

Lemma no_failure_collects_all_witness :
  let st := demo_parallel_for [] 1 7 2 (Demo.one_each 2) [1%nat; 0%nat] demo_state in
  concat (map (collected Demo.SOFTWARE (Demo.single []) 1 7) (split_range 0 2 (Demo.one_each 2)))
  = [0; 1] /\
  length (individual_samples st) = 2%nat /\
  lp_calls st = 21.
Proof.
  apply (no_failure_collects_all Demo.names Demo.SOFTWARE (Demo.single [])
           1 7 2 (Demo.one_each 2) [1%nat; 0%nat]).
  intros iter Hi. assert (iter = 0 \/ iter = 1) as [-> | ->] by lia; discriminate.
Defined.

Lemma fails_iff_nothing_collected_witness :
  Demo.SOFTWARE <> 0 /\
  (fst (demo_multi [0] Demo.psis_same 1 7 1 3 2 Demo.whole [] Demo.clk 10%nat) = returned 70
   <-> concat (map (collected Demo.SOFTWARE (Demo.single [0]) 1 7)
                   (split_range 0 2 Demo.whole)) = []).
Proof.
  split; [discriminate|].
  apply (fails_iff_nothing_collected Demo.names Demo.SOFTWARE (Demo.single [0])
           Demo.psis_same Z Demo.create_rng Demo.rand_psis_idx Demo.to_string_double
           (to_double 0) 1 7 1 3 2 Demo.whole [] Demo.clk 10%nat).
  discriminate.
Defined.

Lemma total_logged_unless_refresh_zero_witness :
  In (logger_info "Total log probability function evaluations:10")
     (snd (demo_multi [1] Demo.psis_same 1 7 1 3 2 (Demo.one_each 2) [] Demo.clk 10%nat)) /\
  List.filter is_log
    (snd (demo_multi [1] Demo.psis_same 1 7 0 3 2 (Demo.one_each 2) [] Demo.clk 10%nat))
  = [logger_info "Pathfinder iteration: 1 failed."].
Proof.
  split.
  - apply (total_logged_unless_refresh_zero Demo.names Demo.SOFTWARE (Demo.single [1])
             Demo.psis_same Z Demo.create_rng Demo.rand_psis_idx Demo.to_string_double
             (to_double 0) 1 7 1 3 2 (Demo.one_each 2) [] Demo.clk 10%nat);
      discriminate.
  - rewrite (proj2 (total_logged_unless_refresh_zero Demo.names Demo.SOFTWARE
                      (Demo.single [1]) Demo.psis_same Z Demo.create_rng Demo.rand_psis_idx
                      Demo.to_string_double (to_double 0) 1 7 0 3 2 (Demo.one_each 2) []
                      Demo.clk 10%nat ltac:(discriminate)) eq_refl).
    reflexivity.
Defined.

Lemma aggregate_succeeds_iff_witness :
  let lp := [[1%float]; [1%float; 1%float]] in
  let first := {| mat_rows := 4; mat_cols := [Demo.draw 0 0] |} in
  let second := {| mat_rows := 4; mat_cols := [Demo.draw 1 0; Demo.draw 1 1] |} in
  is_Some (aggregate (to_double 0) lp [first; second]) /\
  ~ is_Some (aggregate (to_double 0) lp [second; first]).
Proof.
  intros lp first second. split.
  - apply (aggregate_succeeds_iff (to_double 0) lp first [second] eq_refl).
    repeat constructor.
  - intros H.
    apply (aggregate_succeeds_iff (to_double 0) lp second [first] eq_refl) in H.
    inversion H as [|? ? ? ? [Hlen _] _]. discriminate.
Defined.

Lemma uniform_shapes_aggregate_witness :
  let st :=
    parallel_for Demo.SOFTWARE Demo.single_two_draws 1 7 3 (Demo.one_each 3)
                 [0; 0; 1; 1; 1; 2]%nat demo_state in
  exists lp_ratios samples,
    aggregate (to_double 0) (individual_lp_ratios st) (individual_samples st)
    = Some (lp_ratios, samples) /\
    length lp_ratios = 6%nat /\ cols samples = 6%nat /\ rows samples = 4%nat.
Proof.
  apply (uniform_shapes_aggregate Demo.names Demo.SOFTWARE Demo.single_two_draws
           (to_double 0) 1 7 3 (Demo.one_each 3) [0; 0; 1; 1; 1; 2]%nat 2 4).
  - discriminate.
  - intros i [<- | [<- | [<- | []]]]; repeat split.
Defined.

Lemma sequential_run_aggregates_in_path_order_witness :
  let st := demo_parallel_for [] 1 7 3 [2] [] demo_state in
  split_range 0 3 [2] = [ {| r_begin := 0; r_end := 2 |}; {| r_begin := 2; r_end := 3 |} ] /\
  map length (individual_lp_ratios st) = [1; 2; 3]%nat /\
  map cols (individual_samples st) = [1; 2; 3]%nat /\
  exists lp_ratios samples,
    aggregate (to_double 0) (individual_lp_ratios st) (individual_samples st)
    = Some (lp_ratios, samples) /\
    mat_cols samples
    = [Demo.draw 0 0; Demo.draw 1 0; Demo.draw 1 1;
       Demo.draw 2 0; Demo.draw 2 1; Demo.draw 2 2].
Proof.
  intros st.
  destruct (sequential_run_aggregates_in_path_order Demo.names Demo.SOFTWARE
              (Demo.single []) (to_double 0) 1 7 3 [2] 4) as (E1 & E2 & E3).
  - discriminate.
  - intros i [<- | [<- | [<- | []]]]; split; reflexivity.
  - split; [reflexivity|]. fold st in E1, E2, E3. rewrite E1, E2. split; [reflexivity|].
    split; [reflexivity|]. rewrite <- E1, <- E2, E3. eexists _, _. split; reflexivity.
Defined.

Lemma draws_follow_generator_witness :
  let run :=
    demo_multi [] Demo.psis_same 1 7 1 2 2 (Demo.one_each 2) [] Demo.clk 10%nat in
  drawn_indices Z Demo.rand_psis_idx [1%float; 1%float; 1%float] 2 (Demo.create_rng 1 7)
  = [2; 0] /\
  fst run = returned 0 /\
  exists columns,
    List.filter is_draw (snd run) = map param_draw columns /\
    Forall2 (fun c j =>
               col {| mat_rows := 4;
                      mat_cols := [Demo.draw 0 0; Demo.draw 1 0; Demo.draw 1 1] |} j
               = Some c)
            columns [2; 0].
Proof.
  intros run. split; [reflexivity|].
  apply (draws_follow_generator Demo.names Demo.SOFTWARE (Demo.single [])
           Demo.psis_same Z Demo.create_rng Demo.rand_psis_idx Demo.to_string_double
           (to_double 0) 1 7 1 2 2 (Demo.one_each 2) [] Demo.clk 10%nat
           [1%float; 1%float; 1%float]
           {| mat_rows := 4; mat_cols := [Demo.draw 0 0; Demo.draw 1 0; Demo.draw 1 1] |}).
  - discriminate.
  - reflexivity.
  - apply demo_draws_in_range; [repeat constructor | reflexivity].
  - lia.
  - simpl. lia.
Defined.

Lemma nonpositive_draws_keep_drawing_witness :
  to_size_t (-1 - 1) = 2 ^ 64 - 2 /\
  exists draws,
    draw_loop Z Demo.rand_psis_idx (-1) [1%float]
              {| mat_rows := 4; mat_cols := [Demo.draw 0 0] |} 50 0 8
    = (running, draws) /\
    length draws = 50%nat /\ Forall (fun e => is_draw e = true) draws.
Proof.
  apply (nonpositive_draws_keep_drawing Z Demo.rand_psis_idx (-1) [1%float]
           {| mat_rows := 4; mat_cols := [Demo.draw 0 0] |} 50 8).
  - lia.
  - apply demo_draws_in_range; [repeat constructor | reflexivity].
  - simpl. lia.
Defined.

Lemma duration_counts_whole_milliseconds_witness :
  duration_seconds 5 (5 + 1500 * 1000000 + 999999) = 1.5%float /\
  duration_seconds 5 (5 + 999999) = 0%float.
Proof.
  apply (duration_counts_whole_milliseconds 5 1500 999999); lia.
Defined.

(** Two successful paths with one and two draws, each with as many ratios
    as columns and both with four rows, run as two sub-ranges under the
    schedule above. *)
Lemma interleaved_pushes_break_aggregation_witness :
  let p0 := path_ret (Demo.single []) 1 7 0 in
  let p1 := path_ret (Demo.single []) 1 7 1 in
  let st := demo_parallel_for [] 1 7 2 [1] [0; 0; 1; 1; 1]%nat demo_state in
  (length (ret_lp_ratios p0) = 1%nat /\ cols (ret_samples p0) = 1%nat /\
   length (ret_lp_ratios p1) = 2%nat /\ cols (ret_samples p1) = 2%nat /\
   rows (ret_samples p0) = 4%nat /\ rows (ret_samples p1) = 4%nat) /\
  individual_lp_ratios st = [ret_lp_ratios p0; ret_lp_ratios p1] /\
  individual_samples st = [ret_samples p1; ret_samples p0] /\
  aggregate (to_double 0) (individual_lp_ratios st) (individual_samples st) = None /\
  fst (demo_multi [] Demo.psis_same 1 7 1 3 2 [1] [0; 0; 1; 1; 1]%nat Demo.clk 10%nat)
  = assert_failed.
Proof.
  intros p0 p1 st. split; [repeat split|].
  apply (interleaved_pushes_break_aggregation Demo.names Demo.SOFTWARE (Demo.single [])
           Demo.psis_same Z Demo.create_rng Demo.rand_psis_idx Demo.to_string_double
           (to_double 0) 1 7 1 3 Demo.clk 10%nat).
  - intros H. vm_compute in H. discriminate H.
  - intros H. vm_compute in H. discriminate H.
  - reflexivity.
  - intros H. vm_compute in H. discriminate H.
Defined.

